(** * PDF AI agent: ingestion and query lambdas

    A shallow embedding of [lambda/pdf-processor/index.js] and
    [lambda/query-handler/index.js], with the properties of the chunker,
    the embedding batcher, the retry routine and the two handlers.

    Conventions.
    - A JavaScript string is the list of its UTF-16 code units, so that
      [length] is [String.prototype.length] and [slice] cuts code units.
    - Numbers that the code uses as positions, sizes and counters are
      integers ([Z]); the jitter of the backoff, a fraction, is a rational.
    - A loop whose termination depends on its arguments takes a fuel
      (the number of iterations it may run); [None] / [OutOfFuel] says that
      the loop was still running when the fuel ran out.
    - Calls to the outside (OpenAI, Pinecone, S3, pdf-parse, [Math.random],
      [setTimeout]) are answered by an environment [env] from the history
      of the calls made so far, and each call is recorded in a trace. *)

From Stdlib Require Import ZArith List Sorted Lia Bool QArith Qminmax Lqa String Ascii DecimalString.
From Stdlib Require DecimalN.
Import ListNotations.
Open Scope Z_scope.

(** ** JavaScript strings and arrays *)

Definition code_unit := N.
Definition js_string := list code_unit.

(** A literal, written as a Rocq string of ASCII characters. *)
Definition str (s : string) : js_string :=
  map N_of_ascii (list_ascii_of_string s).

Definition js_length {A : Type} (l : list A) : Z := Z.of_nat (List.length l).

(** [slice] of strings and arrays: a negative position counts from the
    end, and both positions are clamped to [0, length]. *)
Definition rel_index (len i : Z) : Z :=
  if i <? 0 then Z.max (len + i) 0 else Z.min i len.

Definition js_slice {A : Type} (l : list A) (s e : Z) : list A :=
  let len := js_length l in
  let from := rel_index len s in
  let to := rel_index len e in
  let span := Z.max (to - from) 0 in
  firstn (Z.to_nat span) (skipn (Z.to_nat from) l).

(** White space and line terminators, the code units [trim] removes. *)
Definition is_white_space (c : code_unit) : bool :=
  existsb (N.eqb c)
    [9; 10; 11; 12; 13; 32; 160; 5760; 8232; 8233; 8239; 8287; 12288; 65279]%N
  || ((8192 <=? c) && (c <=? 8202))%N.

Fixpoint trim_start (s : js_string) : js_string :=
  match s with
  | c :: s' => if is_white_space c then trim_start s' else s
  | [] => []
  end.

Definition trim (s : js_string) : js_string :=
  rev (trim_start (rev (trim_start s))).

Fixpoint starts_with (s p : js_string) : bool :=
  match p, s with
  | [], _ => true
  | _ :: _, [] => false
  | b :: p', a :: s' => N.eqb a b && starts_with s' p'
  end.

Definition ends_with (s p : js_string) : bool :=
  starts_with (rev s) (rev p).

(** [s.replace(/c/g, r)] for a single code unit [c]. *)
Definition replace_all (c : code_unit) (r : js_string) (s : js_string) : js_string :=
  flat_map (fun x => if N.eqb x c then r else [x]) s.

(** Decimal rendering of an integer, as a template literal prints it. *)
Definition number_to_string (z : Z) : js_string :=
  match z with
  | Z0 => str "0"
  | Zpos p => str (DecimalString.NilEmpty.string_of_uint (Pos.to_uint p))
  | Zneg p => str "-" ++ str (DecimalString.NilEmpty.string_of_uint (Pos.to_uint p))
  end.

(** ** The chunker: [splitText]

<<
function splitText(text, chunkSize = 1000, overlap = 200) {
  const chunks = [];
  const len = text.length;
  let start = 0;
  while (start < len) {
    const end = Math.min(start + chunkSize, len);
    const chunk = text.slice(start, end);
    chunks.push(chunk);
    if (end === len) break;
    start = Math.max(0, end - overlap);
  }
  return chunks;
}
>> *)

(** The array [chunks] is a list here, with no bound on its length, where
    the array of the source cannot grow beyond what the engine allows. The
    difference shows only when [overlap >= chunkSize], where the loop can
    push chunk after chunk with [start] staying in place. *)
Fixpoint splitText_loop (fuel : nat) (text : js_string) (chunkSize overlap : Z)
    (start : Z) (chunks : list js_string) : option (list js_string) :=
  match fuel with
  | O => None
  | S fuel' =>
      let len := js_length text in
      if start <? len then
        let end_ := Z.min (start + chunkSize) len in
        let chunk := js_slice text start end_ in
        let chunks := chunks ++ [chunk] in
        if end_ =? len then Some chunks
        else splitText_loop fuel' text chunkSize overlap
               (Z.max 0 (end_ - overlap)) chunks
      else Some chunks
  end.

Definition splitText (fuel : nat) (text : js_string) (chunkSize overlap : Z)
    : option (list js_string) :=
  splitText_loop fuel text chunkSize overlap 0 [].

(** The same loop, recording the positions [(start, end)] of each slice
    instead of the slice: the spans of the chunks. *)
Fixpoint splitSpans_loop (fuel : nat) (len chunkSize overlap : Z)
    (start : Z) (spans : list (Z * Z)) : option (list (Z * Z)) :=
  match fuel with
  | O => None
  | S fuel' =>
      if start <? len then
        let end_ := Z.min (start + chunkSize) len in
        let spans := spans ++ [(start, end_)] in
        if end_ =? len then Some spans
        else splitSpans_loop fuel' len chunkSize overlap
               (Z.max 0 (end_ - overlap)) spans
      else Some spans
  end.

Definition splitSpans (fuel : nat) (len chunkSize overlap : Z) : option (list (Z * Z)) :=
  splitSpans_loop fuel len chunkSize overlap 0 [].

(** The preconditions of the chunker. *)
Definition valid_config (chunkSize overlap : Z) : Prop :=
  chunkSize > 0 /\ 0 <= overlap < chunkSize.

(** The text covered by a chunk sequence: the first chunk, then each
    later chunk without the [overlap] code units it repeats. *)
Definition coverage (overlap : Z) (chunks : list js_string) : js_string :=
  match chunks with
  | [] => []
  | c :: rest => c ++ List.concat (map (skipn (Z.to_nat overlap)) rest)
  end.

(** The last [n] code units of a chunk. *)
Definition suffix {A : Type} (n : Z) (l : list A) : list A :=
  skipn (List.length l - Z.to_nat n) l.

Definition ceil_div (a b : Z) : Z := (a + b - 1) / b.

(** The chunk cut at a span. *)
Definition slice_of (text : js_string) (p : Z * Z) : js_string :=
  js_slice text (fst p) (snd p).

(** The number of windows of size [W] and overlap [o] that the loop cuts
    from [start] on in a text of [len] code units, and the [k]-th of them. *)
Definition windows_from (len W o start : Z) : nat :=
  Z.to_nat (Z.max 1 (ceil_div (len - start - o) (W - o))).

Definition window (len W o start : Z) (k : nat) : Z * Z :=
  (start + Z.of_nat k * (W - o),
   Z.min (start + Z.of_nat k * (W - o) + W) len).

(** ** Values thrown and returned

    An error raised by a collaborator carries the two places where the
    retry routine looks for an HTTP status, [err.status] and
    [err.response.status]; [err_tag] tells errors apart. *)

Record api_error := {
  err_status : option Z;
  err_response_status : option Z;
  err_tag : nat
}.

Inductive js_exn :=
| ApiError (e : api_error)   (* an error thrown by a collaborator *)
| Undefined                  (* [throw lastErr] when no error was caught *)
| TypeError                  (* a property read on [undefined] or [null] *)
| URIError.                  (* [decodeURIComponent] on a malformed key *)

Inductive outcome (A : Type) :=
| Return (a : A)
| Throw (e : js_exn)
| OutOfFuel.

Arguments Return {A} a.
Arguments Throw {A} e.
Arguments OutOfFuel {A}.

(** JSON values, as [JSON.parse] gives them and as the event carries them. *)
#[warnings="-register-all"] Inductive js_value :=
| VUndefined
| VNull
| VBool (b : bool)
| VNum (q : Q)
| VNaN
| VStr (s : js_string)
| VArr (items : list js_value)
| VObj (fields : list (js_string * js_value)).

Definition truthy (v : js_value) : bool :=
  match v with
  | VUndefined | VNull | VNaN => false
  | VBool b => b
  | VNum q => negb (Qeq_bool q 0)
  | VStr s => negb (js_length s =? 0)
  | VArr _ | VObj _ => true
  end.

Fixpoint js_string_eqb (a b : js_string) : bool :=
  match a, b with
  | [], [] => true
  | x :: a', y :: b' => N.eqb x y && js_string_eqb a' b'
  | _, _ => false
  end.

Fixpoint lookup_field (k : js_string) (fields : list (js_string * js_value)) : js_value :=
  match fields with
  | [] => VUndefined
  | (k', v) :: rest => if js_string_eqb k k' then v else lookup_field k rest
  end.

(** [v.k] for one of the keys [query], [topK], [namespace]: no primitive
    and no array has such a property. *)
Definition get_property (v : js_value) (k : js_string) : js_exn + js_value :=
  match v with
  | VUndefined | VNull => inl TypeError
  | VObj fields => inr (lookup_field k fields)
  | _ => inr VUndefined
  end.

(** ** Records of the vector index *)

Definition embedding := list Q.

Record vector_metadata := {
  md_filename : js_string;
  md_chunk_index : Z;
  md_text : js_string;
  md_source_url : js_string
}.

Record vector_record := {
  vec_id : js_string;
  vec_values : embedding;
  vec_metadata : vector_metadata
}.

Record match_metadata := {
  mm_text : option js_string;
  mm_filename : js_value;
  mm_chunk_index : js_value;
  mm_source_url : js_value
}.

Record index_match := {
  m_id : js_value;
  m_score : option Q;
  m_metadata : option match_metadata
}.

(** ** The outside world

    Every call to a collaborator is an event of the trace. *)

Inductive event :=
| EmbeddingsCreate (model : js_string) (input : list js_string)
| EmbeddingsCreateOne (model : js_string) (input : js_string)
| Sleep (ms : Q)
| IndexUpsert (index_name : option js_string) (batch : list vector_record)
| IndexQuery (index_name : option js_string) (topK : js_value)
    (vector : embedding) (namespace : js_value)
| ChatCompletion (system user : js_string)
| S3GetObject (bucket key : js_string)
| S3DeleteObject (bucket key : js_string)
| PdfParse (buffer : list N).

Definition trace := list event.

Inductive s3_get_result :=
| GetFails (e : api_error)         (* [s3Client.send] rejects *)
| GetNoBody                        (* the reply has no [Body] *)
| GetStreamFails (e : api_error)   (* the stream emits [error] *)
| GetBody (buffer : list N).

(** The collaborators answer from the history of calls; the built-in
    functions whose result the code only passes on are fields as well. *)
Record env := {
  embeddings_create : trace -> js_string -> list js_string -> api_error + list embedding;
  embeddings_create_one : trace -> js_string -> js_string -> api_error + list embedding;
  math_random : trace -> Q;
  index_upsert : trace -> option js_string -> list vector_record -> option api_error;
  index_query : trace -> option js_string -> js_value -> embedding -> js_value ->
                api_error + option (list index_match);
  chat_completion : trace -> js_string -> js_string -> api_error + option js_string;
  s3_get_object : trace -> js_string -> js_string -> s3_get_result;
  s3_delete_object : trace -> js_string -> js_string -> option api_error;
  pdf_parse : trace -> list N -> api_error + option js_string;
  decodeURIComponent : js_string -> option js_string;
  JSON_parse : js_string -> option js_value;
  js_Number : js_value -> js_value;
  toFixed3 : Q -> js_string
}.

(** The environment variables read when a module is loaded. *)
Record config := {
  OPENAI_API_KEY : option js_string;
  PINECONE_API_KEY : option js_string;
  PINECONE_INDEX_NAME : option js_string
}.

Definition is_set (v : option js_string) : bool :=
  match v with
  | Some s => negb (js_length s =? 0)
  | None => false
  end.

(** ** Computations with a trace *)

Definition M (A : Type) : Type := trace -> outcome A * trace.

Definition ret {A : Type} (a : A) : M A := fun tr => (Return a, tr).

Definition throw {A : Type} (e : js_exn) : M A := fun tr => (Throw e, tr).

Definition out_of_fuel {A : Type} : M A := fun tr => (OutOfFuel, tr).

Definition bind {A B : Type} (m : M A) (f : A -> M B) : M B :=
  fun tr =>
    match m tr with
    | (Return a, tr') => f a tr'
    | (Throw e, tr') => (Throw e, tr')
    | (OutOfFuel, tr') => (OutOfFuel, tr')
    end.

(** [call ev answer]: record the call, then read the answer of the
    collaborator, which sees the history before the call. *)
Definition call {A : Type} (ev : event) (answer : trace -> A) : M A :=
  fun tr => (Return (answer tr), tr ++ [ev]).

(** A read that leaves no event ([Math.random]). *)
Definition ask {A : Type} (answer : trace -> A) : M A :=
  fun tr => (Return (answer tr), tr).

Declare Scope js_scope.
Delimit Scope js_scope with js.
Notation "x <- m ;; k" := (bind m (fun x => k))
  (at level 61, m at next level, right associativity) : js_scope.
Notation "m ;;; k" := (bind m (fun _ => k))
  (at level 61, right associativity) : js_scope.
Open Scope js_scope.

(** ** The retry routine: [createEmbeddingsWithRetry]

<<
async function createEmbeddingsWithRetry(openai, model, inputs, maxRetries = 5) {
  let attempt = 0;
  let lastErr;
  while (attempt < maxRetries) {
    try {
      const res = await openai.embeddings.create({ model, input: inputs });
      return res.data.map((d) => d.embedding);
    } catch (err) {
      lastErr = err;
      const status = err?.status || err?.response?.status;
      const is429 = status === 429;
      const is5xx = status >= 500 && status < 600;
      if (!(is429 || is5xx)) throw err;
      const backoffMs = Math.min(1000 * Math.pow(2, attempt) + Math.random() * 250, 8000);
      await new Promise((r) => setTimeout(r, backoffMs));
      attempt++;
    }
  }
  throw lastErr;
}
>> *)

(** [err?.status || err?.response?.status]: a status 0 is falsy. *)
Definition status_of (err : api_error) : option Z :=
  match err_status err with
  | Some s => if s =? 0 then err_response_status err else Some s
  | None => err_response_status err
  end.

Definition is429 (status : option Z) : bool :=
  match status with
  | Some s => s =? 429
  | None => false
  end.

Definition is5xx (status : option Z) : bool :=
  match status with
  | Some s => (500 <=? s) && (s <? 600)
  | None => false
  end.

Definition backoffMs (attempt : Z) (random : Q) : Q :=
  Qmin (1000 * inject_Z (2 ^ attempt) + random * 250) 8000.

(** [throw lastErr] *)
Definition thrown_last (lastErr : option api_error) : js_exn :=
  match lastErr with
  | Some err => ApiError err
  | None => Undefined
  end.

Fixpoint retry_loop (E : env) (fuel : nat) (model : js_string)
    (inputs : list js_string) (maxRetries attempt : Z)
    (lastErr : option api_error) : M (list embedding) :=
  match fuel with
  | O => out_of_fuel
  | S fuel' =>
      if attempt <? maxRetries then
        res <- call (EmbeddingsCreate model inputs)
                 (fun tr => embeddings_create E tr model inputs) ;;
        match res with
        | inr data => ret data
        | inl err =>
            let status := status_of err in
            if negb (is429 status || is5xx status) then throw (ApiError err)
            else
              random <- ask (math_random E) ;;
              call (Sleep (backoffMs attempt random)) (fun _ => tt) ;;;
              retry_loop E fuel' model inputs maxRetries (attempt + 1) (Some err)
        end
      else throw (thrown_last lastErr)
  end.

(** The loop runs at most [maxRetries] times and then once more to leave. *)
Definition createEmbeddingsWithRetry (E : env) (model : js_string)
    (inputs : list js_string) (maxRetries : Z) : M (list embedding) :=
  retry_loop E (S (Z.to_nat maxRetries)) model inputs maxRetries 0 None.

(** ** The embedding batcher: [embedAllChunks]

<<
  const vectors = [];
  for (let start = 0; start < chunks.length; start += batchSize) {
    const batch = chunks.slice(start, start + batchSize).map((t) => (t || '').trim());
    const indices = batch.map((_, idx) => start + idx);
    const nonEmpty = batch.map((t, idx) => ({ text: t, idx: indices[idx] }))
                          .filter((x) => x.text.length > 0);
    if (nonEmpty.length === 0) continue;
    const inputs = nonEmpty.map((x) => x.text);
    const embeddings = await createEmbeddingsWithRetry(openai, model, inputs, maxRetries);
    for (let j = 0; j < embeddings.length; j++) {
      const globalIndex = nonEmpty[j].idx;
      vectors.push({ id: `${idPrefix}-${globalIndex}`, values: embeddings[j],
        metadata: { filename, chunk_index: globalIndex, text: nonEmpty[j].text,
                    source_url: sourceUrl } });
    }
  }
  return vectors;
>> *)

Record embed_options := {
  idPrefix : js_string;
  filename : js_string;
  sourceUrl : js_string;
  model : js_string;
  batchSize : Z;
  maxRetries : Z
}.

(** An entry [{ text, idx }] of [nonEmpty]. *)
Definition indexed_text : Type := js_string * Z.

Definition batch_of (chunks : list js_string) (start size : Z) : list js_string :=
  map trim (js_slice chunks start (start + size)).

Definition indices_of (start : Z) (batch : list js_string) : list Z :=
  map (fun idx => start + Z.of_nat idx) (seq 0 (List.length batch)).

Definition has_text (x : indexed_text) : bool := 0 <? js_length (fst x).

Definition nonEmpty_of (start : Z) (batch : list js_string) : list indexed_text :=
  filter has_text (combine batch (indices_of start batch)).

Definition vector_id (prefix : js_string) (globalIndex : Z) : js_string :=
  prefix ++ str "-" ++ number_to_string globalIndex.

Definition make_vector (opts : embed_options) (x : indexed_text) (values : embedding)
    : vector_record :=
  {| vec_id := vector_id (idPrefix opts) (snd x);
     vec_values := values;
     vec_metadata := {| md_filename := filename opts;
                        md_chunk_index := snd x;
                        md_text := fst x;
                        md_source_url := sourceUrl opts |} |}.

(** The inner loop: [j] walks [embeddings], and reads [nonEmpty[j]], which
    is [undefined] when the provider sent more vectors than inputs. *)
Fixpoint push_vectors (opts : embed_options) (nonEmpty : list indexed_text)
    (embeddings : list embedding) (vectors : list vector_record)
    {struct embeddings} : M (list vector_record) :=
  match embeddings with
  | [] => ret vectors
  | values :: embeddings' =>
      match nonEmpty with
      | [] => throw TypeError
      | x :: nonEmpty' =>
          push_vectors opts nonEmpty' embeddings' (vectors ++ [make_vector opts x values])
      end
  end.

Fixpoint embed_loop (E : env) (fuel : nat) (chunks : list js_string)
    (opts : embed_options) (start : Z) (vectors : list vector_record)
    : M (list vector_record) :=
  match fuel with
  | O => out_of_fuel
  | S fuel' =>
      if start <? js_length chunks then
        let batch := batch_of chunks start (batchSize opts) in
        let nonEmpty := nonEmpty_of start batch in
        if js_length nonEmpty =? 0 then
          embed_loop E fuel' chunks opts (start + batchSize opts) vectors
        else
          let inputs := map fst nonEmpty in
          embeddings <- createEmbeddingsWithRetry E (model opts) inputs (maxRetries opts) ;;
          vectors' <- push_vectors opts nonEmpty embeddings vectors ;;
          embed_loop E fuel' chunks opts (start + batchSize opts) vectors'
      else ret vectors
  end.

Definition embedAllChunks (E : env) (fuel : nat) (chunks : list js_string)
    (opts : embed_options) : M (list vector_record) :=
  embed_loop E fuel chunks opts 0 [].

(** ** The ingestion handler: [lambda/pdf-processor] *)

Record s3_event_record := {
  bucket_name : js_string;   (* record.s3.bucket.name *)
  object_key : js_string     (* record.s3.object.key *)
}.

(** [key.replace(/\//g, '_').replace(/\./g, '-')] *)
Definition id_prefix_of (key : js_string) : js_string :=
  replace_all 46%N (str "-") (replace_all 47%N (str "_") key).

Definition source_url_of (bucket key : js_string) : js_string :=
  str "s3://" ++ bucket ++ str "/" ++ key.

Definition options_of (bucket key : js_string) : embed_options :=
  {| idPrefix := id_prefix_of key;
     filename := key;
     sourceUrl := source_url_of bucket key;
     model := str "text-embedding-3-small";
     batchSize := 64;
     maxRetries := 5 |}.

(** Step 5, [for (let i = 0; i < vectors.length; i += batchSize)] with
    [batchSize = 100]. *)
Fixpoint upsert_loop (E : env) (fuel : nat) (index_name : option js_string)
    (vectors : list vector_record) (i : Z) : M unit :=
  match fuel with
  | O => out_of_fuel
  | S fuel' =>
      if i <? js_length vectors then
        let batch := js_slice vectors i (i + 100) in
        failed <- call (IndexUpsert index_name batch)
                    (fun tr => index_upsert E tr index_name batch) ;;
        match failed with
        | Some err => throw (ApiError err)
        | None => upsert_loop E fuel' index_name vectors (i + 100)
        end
      else ret tt
  end.

(** [data.text || ''] *)
Definition text_or_empty (text : option js_string) : js_string :=
  match text with
  | Some s => s
  | None => []
  end.

(** Steps 2 (the test of the text) to 6 of the body of the loop. *)
Definition ingest_text (E : env) (cfg : config) (fuel : nat)
    (bucket key rawText : js_string) : M unit :=
  if js_length (trim rawText) =? 0 then ret tt
  else
    match splitText fuel rawText 1000 200 with
    | None => out_of_fuel
    | Some docs =>
        vectors <- embedAllChunks E fuel docs (options_of bucket key) ;;
        if js_length vectors =? 0 then ret tt
        else
          upsert_loop E (S (List.length vectors)) (PINECONE_INDEX_NAME cfg) vectors 0 ;;;
          failed <- call (S3DeleteObject bucket key)
                      (fun tr => s3_delete_object E tr bucket key) ;;
          match failed with
          | Some err => throw (ApiError err)
          | None => ret tt
          end
    end.

(** One turn of [for (const record of event.Records || [])]; the [catch]
    logs and throws the error again. *)
Definition process_record (E : env) (cfg : config) (fuel : nat)
    (record : s3_event_record) : M unit :=
  let bucketName := bucket_name record in
  match decodeURIComponent E (replace_all 43%N (str " ") (object_key record)) with
  | None => throw URIError
  | Some key =>
      if negb (ends_with key (str ".pdf")) then ret tt
      else if negb (starts_with key (str "uploads/")) then ret tt
      else
        got <- call (S3GetObject bucketName key)
                 (fun tr => s3_get_object E tr bucketName key) ;;
        match got with
        | GetFails err => throw (ApiError err)
        | GetNoBody => ret tt
        | GetStreamFails err => throw (ApiError err)
        | GetBody buffer =>
            data <- call (PdfParse buffer) (fun tr => pdf_parse E tr buffer) ;;
            match data with
            | inl err => throw (ApiError err)
            | inr text => ingest_text E cfg fuel bucketName key (text_or_empty text)
            end
        end
  end.

Fixpoint process_records (E : env) (cfg : config) (fuel : nat)
    (records : list s3_event_record) : M unit :=
  match records with
  | [] => ret tt
  | record :: rest =>
      process_record E cfg fuel record ;;;
      process_records E cfg fuel rest
  end.

(** The handler; the result is the [statusCode] of its reply. *)
Definition pdf_processor_handler (E : env) (cfg : config) (fuel : nat)
    (records : list s3_event_record) : M Z :=
  process_records E cfg fuel records ;;; ret 200.

(** ** The query handler: [lambda/query-handler] *)

Record query_event := {
  httpMethod : js_value;
  body : js_value
}.

Record match_summary := {
  ms_id : js_value;
  ms_score : option Q;
  ms_filename : js_value;
  ms_chunk_index : js_value;
  ms_source_url : js_value
}.

(** The payload that [response] serialises into the body of the reply. *)
Inductive payload :=
| Message (message : js_string)
| InternalServerError (error : js_exn)
| Answer (answer : js_string) (matches : list match_summary).

Record http_response := {
  statusCode : Z;
  reply : payload
}.

Definition response (status : Z) (p : payload) : http_response :=
  {| statusCode := status; reply := p |}.

(** [parseBody]: no body gives [{}], a string is parsed ([{}] when the
    parser throws), another value is taken as it is. *)
Definition parseBody (E : env) (b : js_value) : js_value :=
  if negb (truthy b) then VObj []
  else
    match b with
    | VStr s =>
        match JSON_parse E s with
        | Some v => v
        | None => VObj []
        end
    | _ => b
    end.

Definition is_POST (v : js_value) : bool :=
  match v with
  | VStr s => js_string_eqb s (str "POST")
  | _ => false
  end.

(** [v || d] *)
Definition or_else (v d : js_value) : js_value := if truthy v then v else d.

(** [v.trim()]: only a string has the method. *)
Definition trim_value (v : js_value) : js_exn + js_string :=
  match v with
  | VStr s => inr (trim s)
  | _ => inl TypeError
  end.

Definition lift {A : Type} (r : js_exn + A) : M A :=
  match r with
  | inl e => throw e
  | inr a => ret a
  end.

Definition lift_api {A : Type} (r : api_error + A) : M A :=
  match r with
  | inl e => throw (ApiError e)
  | inr a => ret a
  end.

(** [(body.query || '').trim()] *)
Definition query_of (b : js_value) : js_exn + js_string :=
  match get_property b (str "query") with
  | inl e => inl e
  | inr q => trim_value (or_else q (VStr []))
  end.

Definition has_metadata_text (m : index_match) : bool :=
  match m_metadata m with
  | Some md => is_set (mm_text md)
  | None => false
  end.

Fixpoint join (sep : js_string) (parts : list js_string) : js_string :=
  match parts with
  | [] => []
  | [p] => p
  | p :: rest => p ++ sep ++ join sep rest
  end.

(** [[#${i + 1}] (score=${m.score?.toFixed(3)})\n${text.slice(0, 1500)}] *)
Definition render_match (E : env) (i : nat) (m : index_match) : js_string :=
  str "[#" ++ number_to_string (Z.of_nat i + 1) ++ str "] (score=" ++
  match m_score m with
  | Some s => toFixed3 E s
  | None => str "undefined"
  end ++ str ")" ++ [10%N] ++
  js_slice (text_or_empty (match m_metadata m with
                           | Some md => mm_text md
                           | None => None
                           end)) 0 1500.

Fixpoint render_matches (E : env) (i : nat) (ms : list index_match) : list js_string :=
  match ms with
  | [] => []
  | m :: rest => render_match E i m :: render_matches E (S i) rest
  end.

Definition summary_of (m : index_match) : match_summary :=
  {| ms_id := m_id m;
     ms_score := m_score m;
     ms_filename := match m_metadata m with Some md => mm_filename md | None => VUndefined end;
     ms_chunk_index := match m_metadata m with Some md => mm_chunk_index md | None => VUndefined end;
     ms_source_url := match m_metadata m with Some md => mm_source_url md | None => VUndefined end |}.

(** The constant [system] of the query handler, in UTF-16 code units. *)
Definition system_prompt : js_string :=
  [66; 7841; 110; 32; 108; 224; 32; 116; 114; 7907; 32; 108; 253; 32; 65; 73;
   32; 116; 114; 7843; 32; 108; 7901; 105; 32; 110; 103; 7855; 110; 32; 103;
   7885; 110; 44; 32; 99; 104; 237; 110; 104; 32; 120; 225; 99; 32; 98; 7857;
   110; 103; 32; 116; 105; 7871; 110; 103; 32; 86; 105; 7879; 116; 32; 100;
   7921; 97; 32; 116; 114; 234; 110; 32; 110; 103; 7919; 32; 99; 7843; 110;
   104; 32; 273; 432; 7907; 99; 32; 99; 117; 110; 103; 32; 99; 7845; 112; 46;
   32; 78; 7871; 117; 32; 107; 104; 244; 110; 103; 32; 273; 7911; 32; 110;
   103; 7919; 32; 99; 7843; 110; 104; 44; 32; 104; 227; 121; 32; 110; 243;
   105; 32; 107; 104; 244; 110; 103; 32; 99; 104; 7855; 99; 32; 99; 104; 7855;
   110; 46]%N.

(** The pieces of the template [user]: before the query, *)
Definition user_question : js_string :=
  [67; 226; 117; 32; 104; 7887; 105; 58; 32]%N.

(** between the query and the context, *)
Definition user_context : js_string :=
  [10; 10; 78; 103; 7919; 32; 99; 7843; 110; 104; 32; 108; 105; 234; 110; 32;
   113; 117; 97; 110; 58; 10]%N.

(** and after the context. *)
Definition user_request : js_string :=
  [10; 10; 89; 234; 117; 32; 99; 7847; 117; 58; 32; 84; 114; 7843; 32; 108;
   7901; 105; 32; 100; 7921; 97; 32; 118; 224; 111; 32; 110; 103; 7919; 32;
   99; 7843; 110; 104; 32; 7903; 32; 116; 114; 234; 110; 46; 32; 78; 7871;
   117; 32; 116; 104; 105; 7871; 117; 44; 32; 110; 234; 117; 32; 114; 245; 32;
   108; 224; 32; 99; 243; 32; 116; 104; 7875; 32; 107; 104; 244; 110; 103; 32;
   99; 104; 237; 110; 104; 32; 120; 225; 99; 46]%N.

(** The text used when no context was retrieved. *)
Definition no_context : js_string :=
  [40; 107; 104; 244; 110; 103; 32; 99; 243; 41]%N.

(** Steps 1 to 3, after the request has been accepted. *)
Definition answer_query (E : env) (cfg : config) (query : js_string)
    (topK namespace : js_value) : M http_response :=
  let embed_model := str "text-embedding-3-small" in
  embeddingRes <- call (EmbeddingsCreateOne embed_model query)
                    (fun tr => embeddings_create_one E tr embed_model query) ;;
  data <- lift_api embeddingRes ;;
  vector <- match data with
            | v :: _ => ret v
            | [] => throw TypeError
            end ;;
  found <- call (IndexQuery (PINECONE_INDEX_NAME cfg) topK vector namespace)
             (fun tr => index_query E tr (PINECONE_INDEX_NAME cfg) topK vector namespace) ;;
  search <- lift_api found ;;
  let matches := filter has_metadata_text
                   (match search with Some ms => ms | None => [] end) in
  let contextText := join [10; 10]%N (render_matches E 0 matches) in
  let user := user_question ++ query ++ user_context ++
              (if js_length contextText =? 0 then no_context else contextText) ++
              user_request in
  completion <- call (ChatCompletion system_prompt user)
                  (fun tr => chat_completion E tr system_prompt user) ;;
  content <- lift_api completion ;;
  let answer := match content with
                | Some c => trim c
                | None => []
                end in
  ret (response 200 (Answer answer (map summary_of matches))).

(** The body of the [try] block. *)
Definition query_try (E : env) (cfg : config) (event : query_event) : M http_response :=
  if negb (is_set (OPENAI_API_KEY cfg)) || negb (is_set (PINECONE_API_KEY cfg))
     || negb (is_set (PINECONE_INDEX_NAME cfg))
  then ret (response 500 (Message (str "Missing required environment variables")))
  else if truthy (httpMethod event) && negb (is_POST (httpMethod event))
  then ret (response 405 (Message (str "Method Not Allowed")))
  else
    let b := parseBody E (body event) in
    query <- lift (query_of b) ;;
    topK_field <- lift (get_property b (str "topK")) ;;
    let topK := js_Number E (or_else topK_field (VNum 5)) in
    namespace_field <- lift (get_property b (str "namespace")) ;;
    let namespace := or_else namespace_field VUndefined in
    if js_length query =? 0
    then ret (response 400 (Message (str "Missing query")))
    else answer_query E cfg query topK namespace.

(** [catch (err)]: every error becomes a reply with status 500. *)
Definition query_handler (E : env) (cfg : config) (event : query_event) : M http_response :=
  fun tr =>
    match query_try E cfg event tr with
    | (Throw err, tr') => (Return (response 500 (InternalServerError err)), tr')
    | other => other
    end.

(** ** Reading a trace *)

Definition is_provider_call (ev : event) : bool :=
  match ev with
  | EmbeddingsCreate _ _ | EmbeddingsCreateOne _ _ => true
  | _ => false
  end.

Definition is_sleep (ev : event) : bool :=
  match ev with
  | Sleep _ => true
  | _ => false
  end.

Definition count_calls (evs : trace) : Z :=
  js_length (filter is_provider_call evs).

(** The ids written to the index, in the order of the upsert calls. *)
Definition upserted_ids (evs : trace) : list js_string :=
  flat_map (fun ev => match ev with
                      | IndexUpsert _ batch => map vec_id batch
                      | _ => []
                      end) evs.

(** The inputs of the calls to the embedding provider. *)
Definition sent_inputs (evs : trace) : list (list js_string) :=
  flat_map (fun ev => match ev with
                      | EmbeddingsCreate _ inputs => [inputs]
                      | _ => []
                      end) evs.

(** The provider sends one vector per input. *)
Definition one_vector_per_input (E : env) : Prop :=
  forall tr m inputs data,
    embeddings_create E tr m inputs = inr data ->
    List.length data = List.length inputs.

(** [Math.random] is in [0, 1). *)
Definition random_in_unit (E : env) : Prop :=
  forall tr, (0 <= math_random E tr)%Q /\ (math_random E tr < 1)%Q.

(** The chunks that survive the trimming, each with its position. *)
Fixpoint enumerate_from (start : Z) (texts : list js_string) : list indexed_text :=
  match texts with
  | [] => []
  | t :: rest => (t, start) :: enumerate_from (start + 1) rest
  end.

Definition surviving (chunks : list js_string) : list indexed_text :=
  filter has_text (enumerate_from 0 (map trim chunks)).

(** What a record says about its chunk. *)
Definition record_key (v : vector_record) : js_string * Z * js_string :=
  (vec_id v, md_chunk_index (vec_metadata v), md_text (vec_metadata v)).

(** What follows a call of the retry routine that was made with the
    attempt counter at [attempt], after the history [history]: [rest] is
    the remainder of the trace of the routine and [out] its outcome. *)
Definition after_attempt (E : env) (model : js_string) (inputs : list js_string)
    (maxRetries attempt : Z) (history rest : trace)
    (out : outcome (list embedding)) : Prop :=
  match embeddings_create E history model inputs with
  | inr data => rest = [] /\ out = Return data
  | inl err =>
      if is429 (status_of err) || is5xx (status_of err) then
        exists (x : Q) (rest' : trace),
          rest = Sleep (Qmin x 8000) :: rest' /\
          (1000 * inject_Z (2 ^ attempt) <= x)%Q /\
          (x <= 1000 * inject_Z (2 ^ attempt) + 250)%Q /\
          (rest' = [] -> out = Throw (ApiError err) /\ attempt + 1 = maxRetries) /\
          (rest' <> [] ->
             exists rest'', rest' = EmbeddingsCreate model inputs :: rest'' /\
                            attempt + 1 < maxRetries)
      else rest = [] /\ out = Throw (ApiError err)
  end.

(** The records pushed for a batch: [nonEmpty[j]] with [embeddings[j]]. *)
Definition zip_vectors (opts : embed_options) (nonEmpty : list indexed_text)
    (embeddings : list embedding) : list vector_record :=
  map (fun p => make_vector opts (fst p) (snd p)) (combine nonEmpty embeddings).

(** The id, the index and the text of the record of a surviving chunk. *)
Definition key_of (prefix : js_string) (x : indexed_text) : js_string * Z * js_string :=
  (vector_id prefix (snd x), snd x, fst x).

(** The text was extracted from the document of [record], whose decoded
    key is [key], after the history [tr]. *)
Definition extracted (E : env) (tr : trace) (record : s3_event_record)
    (key text : js_string) : Prop :=
  decodeURIComponent E (replace_all 43%N (str " ") (object_key record)) = Some key /\
  exists buffer data,
    s3_get_object E tr (bucket_name record) key = GetBody buffer /\
    pdf_parse E (tr ++ [S3GetObject (bucket_name record) key]) buffer = inr data /\
    text_or_empty data = text.

(** The effects that ingestion has on the provider, the index and the
    source document. *)
Definition is_ingestion_effect (ev : event) : bool :=
  match ev with
  | EmbeddingsCreate _ _ | EmbeddingsCreateOne _ _
  | IndexUpsert _ _ | S3DeleteObject _ _ => true
  | _ => false
  end.

(** The ids that ingestion writes for a document: a function of its key
    and of its text. *)
Definition ids_of (key text : js_string) : list js_string :=
  if js_length (trim text) =? 0 then []
  else
    match splitText (S (List.length text)) text 1000 200 with
    | Some docs => map (fun x => vector_id (id_prefix_of key) (snd x)) (surviving docs)
    | None => []
    end.

(** The keys that the handler processes. *)
Definition eligible (key : js_string) : bool :=
  ends_with key (str ".pdf") && starts_with key (str "uploads/").

(** The query of the request is empty after trimming; an absent [query]
    field counts, since [body.query || ''] is then the empty string. *)
Definition blank_query (E : env) (event : query_event) : Prop :=
  query_of (parseBody E (body event)) = inr [].

(** The three environment variables are set. *)
Definition configured (cfg : config) : bool :=
  is_set (OPENAI_API_KEY cfg) && is_set (PINECONE_API_KEY cfg)
  && is_set (PINECONE_INDEX_NAME cfg).

(** The method is [POST], or the event names no method. *)
Definition method_allowed (event : query_event) : bool :=
  negb (truthy (httpMethod event) && negb (is_POST (httpMethod event))).

(** ** More readings of a trace *)

Definition is_upsert (ev : event) : bool :=
  match ev with
  | IndexUpsert _ _ => true
  | _ => false
  end.

Definition is_delete (ev : event) : bool :=
  match ev with
  | S3DeleteObject _ _ => true
  | _ => false
  end.

(** The batches written to the index, in the order of the calls. *)
Definition upserted_batches (evs : trace) : list (list vector_record) :=
  flat_map (fun ev => match ev with
                      | IndexUpsert _ batch => [batch]
                      | _ => []
                      end) evs.

(** The [k]-th call of the upsert loop that starts at [i]: the records
    [i + 100 k] to [i + 100 k + 100]. *)
Definition nth_upsert (index_name : option js_string) (vectors : list vector_record)
    (i : Z) (k : nat) : event :=
  IndexUpsert index_name
    (js_slice vectors (i + 100 * Z.of_nat k) (i + 100 * Z.of_nat k + 100)).

Definition count_sleeps (evs : trace) : Z :=
  js_length (filter is_sleep evs).

(** The time slept, in milliseconds. *)
Fixpoint slept (evs : trace) : Q :=
  match evs with
  | [] => 0
  | Sleep ms :: rest => ms + slept rest
  | _ :: rest => slept rest
  end.

(** ** The upload handler: [lambda/upload-handler]

<<
function safeName(name) {
  return name.replace(/[^A-Za-z0-9._-]/g, '_');
}
>> *)

Definition is_safe_char (c : code_unit) : bool :=
  (((65 <=? c) && (c <=? 90)) || ((97 <=? c) && (c <=? 122))
   || ((48 <=? c) && (c <=? 57))
   || (c =? 46) || (c =? 95) || (c =? 45))%N.

Definition safe_char (c : code_unit) : code_unit :=
  if is_safe_char c then c else 95%N.

Definition safeName (name : js_string) : js_string := map safe_char name.

(** What one invocation of the upload handler gets from outside: the
    value of [uuidv4()], the answer of [getSignedUrl] to the command (bucket,
    key, content type, [expiresIn]), and [String.prototype.toLowerCase]. *)
Record upload_env := {
  uuidv4 : js_string;
  getSignedUrl : js_string -> js_string -> js_string -> Z -> api_error + js_string;
  toLowerCase : js_string -> js_string
}.

Inductive upload_payload :=
| UploadMessage (message : js_string)
| UploadInternalError (error : js_exn)
| UploadUrl (uploadUrl key bucket : js_string) (expiresIn : Z).

Record upload_response := {
  up_status : Z;
  up_reply : upload_payload
}.

(** [(body.k || default).trim()] *)
Definition string_field (b : js_value) (k default : js_string) : js_exn + js_string :=
  match get_property b k with
  | inl e => inl e
  | inr v => trim_value (or_else v (VStr default))
  end.

(** [`uploads/${uuidv4()}-${safeName(originalFileName)}`] *)
Definition object_key_of (uuid originalFileName : js_string) : js_string :=
  str "uploads/" ++ uuid ++ str "-" ++ safeName originalFileName.

(** The body of the [try] block; [BUCKET_NAME] is the environment
    variable. *)
Definition upload_try (E : env) (U : upload_env) (BUCKET_NAME : option js_string)
    (event : query_event) : js_exn + upload_response :=
  if negb (is_set BUCKET_NAME)
  then inr {| up_status := 500;
              up_reply := UploadMessage (str "Missing BUCKET_NAME environment variable") |}
  else if truthy (httpMethod event) && negb (is_POST (httpMethod event))
  then inr {| up_status := 405; up_reply := UploadMessage (str "Method Not Allowed") |}
  else
    let b := parseBody E (body event) in
    match string_field b (str "fileName") (str "document.pdf") with
    | inl e => inl e
    | inr originalFileName =>
        match string_field b (str "contentType") (str "application/pdf") with
        | inl e => inl e
        | inr contentType =>
            if negb (ends_with (toLowerCase U originalFileName) (str ".pdf"))
            then inr {| up_status := 400;
                        up_reply := UploadMessage (str "Only .pdf files are supported") |}
            else
              let objectKey := object_key_of (uuidv4 U) originalFileName in
              let bucket := text_or_empty BUCKET_NAME in
              match getSignedUrl U bucket objectKey contentType 900 with
              | inl err => inl (ApiError err)
              | inr uploadUrl =>
                  inr {| up_status := 200;
                         up_reply := UploadUrl uploadUrl objectKey bucket 900 |}
              end
        end
    end.

(** [catch (err)]: every error becomes a reply with status 500. *)
Definition upload_handler (E : env) (U : upload_env) (BUCKET_NAME : option js_string)
    (event : query_event) : upload_response :=
  match upload_try E U BUCKET_NAME event with
  | inr r => r
  | inl err => {| up_status := 500; up_reply := UploadInternalError err |}
  end.

(** The context block of the prompt for the matches that have a text. *)
Definition context_of (E : env) (matches : list index_match) : js_string :=
  match matches with
  | [] => no_context
  | _ :: _ => join [10; 10]%N (render_matches E 0 matches)
  end.

(** The three calls of an answered query. *)
Definition query_calls (E : env) (cfg : config) (query : js_string)
    (topK namespace : js_value) (vector : embedding) (matches : list index_match)
    : trace :=
  [EmbeddingsCreateOne (str "text-embedding-3-small") query;
   IndexQuery (PINECONE_INDEX_NAME cfg) topK vector namespace;
   ChatCompletion system_prompt
     (user_question ++ query ++ user_context ++ context_of E matches ++ user_request)].

Definition number_query : query_event :=
  {| httpMethod := VStr (str "POST");
     body := VObj [(str "query", VNum 42)] |}.

(** A sample of what the upload handler gets from outside. *)
Definition sample_upload_env : upload_env :=
  {| uuidv4 := str "123e4567-e89b-42d3-a456-426614174000";
     getSignedUrl := fun bucket key _ _ => inr (str "https://s3/" ++ bucket ++ str "/" ++ key);
     toLowerCase := fun s => s |}.

Definition upload_request : query_event :=
  {| httpMethod := VStr (str "POST");
     body := VObj [(str "fileName", VStr (str " my report (v2).pdf "))] |}.

(** ** A sample environment

    The provider is rate limited (429) on its first two calls and then
    sends one vector per input; the other collaborators succeed. *)
Definition rate_limited : api_error :=
  {| err_status := Some 429; err_response_status := None; err_tag := 0 |}.

Definition sample_env : env :=
  {| embeddings_create := fun tr _ inputs =>
       if count_calls tr <? 2 then inl rate_limited
       else inr (map (fun _ => [1 # 2]%Q) inputs);
     embeddings_create_one := fun _ _ _ => inr [[1 # 2]%Q];
     math_random := fun _ => (1 # 2)%Q;
     index_upsert := fun _ _ _ => None;
     index_query := fun _ _ _ _ _ => inr (Some []);
     chat_completion := fun _ _ _ => inr (Some (str "ok"));
     s3_get_object := fun _ _ key =>
       if js_string_eqb key (str "uploads/scan.pdf") then GetBody [0%N]
       else GetBody [1%N];
     s3_delete_object := fun _ _ _ => None;
     pdf_parse := fun _ buffer =>
       match buffer with
       | [0%N] => inr (Some (str "   "))
       | _ => inr (Some (str "hello world"))
       end;
     decodeURIComponent := fun s => Some s;
     JSON_parse := fun _ => None;
     js_Number := fun v => v;
     toFixed3 := fun _ => str "0.500" |}.

(** A provider that fails every call with the given status. *)
Definition failing_env (status : option Z) : env :=
  {| embeddings_create := fun _ _ _ =>
       inl {| err_status := status; err_response_status := None; err_tag := 1 |};
     embeddings_create_one := embeddings_create_one sample_env;
     math_random := math_random sample_env;
     index_upsert := index_upsert sample_env;
     index_query := index_query sample_env;
     chat_completion := chat_completion sample_env;
     s3_get_object := s3_get_object sample_env;
     s3_delete_object := s3_delete_object sample_env;
     pdf_parse := pdf_parse sample_env;
     decodeURIComponent := decodeURIComponent sample_env;
     JSON_parse := JSON_parse sample_env;
     js_Number := js_Number sample_env;
     toFixed3 := toFixed3 sample_env |}.


(** An index that accepts one batch and refuses every later one. *)
Definition index_down : api_error :=
  {| err_status := Some 503; err_response_status := None; err_tag := 2 |}.

Definition broken_index_env : env :=
  {| embeddings_create := embeddings_create sample_env;
     embeddings_create_one := embeddings_create_one sample_env;
     math_random := math_random sample_env;
     index_upsert := fun tr _ _ =>
       if existsb is_upsert tr then Some index_down else None;
     index_query := index_query sample_env;
     chat_completion := chat_completion sample_env;
     s3_get_object := s3_get_object sample_env;
     s3_delete_object := s3_delete_object sample_env;
     pdf_parse := pdf_parse sample_env;
     decodeURIComponent := decodeURIComponent sample_env;
     JSON_parse := JSON_parse sample_env;
     js_Number := js_Number sample_env;
     toFixed3 := toFixed3 sample_env |}.

Definition sample_config : config :=
  {| OPENAI_API_KEY := Some (str "sk");
     PINECONE_API_KEY := Some (str "pk");
     PINECONE_INDEX_NAME := Some (str "docs") |}.

Definition sample_chunks : list js_string := [str " a "; str "  "; str "b"].

Definition sample_options : embed_options :=
  options_of (str "bucket") (str "uploads/x.pdf").

(** 250 records, for three batches. *)
Definition many_vectors : list vector_record :=
  map (fun k => make_vector sample_options (str "t", Z.of_nat k) []%Q) (seq 0 250).

Definition sample_record : s3_event_record :=
  {| bucket_name := str "bucket"; object_key := str "uploads/x.pdf" |}.

Definition scanned_record : s3_event_record :=
  {| bucket_name := str "bucket"; object_key := str "uploads/scan.pdf" |}.

Definition text_record : s3_event_record :=
  {| bucket_name := str "bucket"; object_key := str "uploads/notes.txt" |}.

(** The history after a first ingestion of [sample_record]. *)
Definition after_first_run : trace :=
  snd (process_record sample_env sample_config 3 sample_record []).

Definition get_blank_query : query_event :=
  {| httpMethod := VStr (str "GET");
     body := VObj [(str "query", VStr (str "  "))] |}.


(** * Properties *)

(** ** Lists and slices *)

Lemma js_slice_inner {A : Type} (l : list A) (a b : Z) :
  0 <= a <= b -> b <= js_length l ->
  js_slice l a b = firstn (Z.to_nat (b - a)) (skipn (Z.to_nat a) l).
Proof.
  intros Hab Hb. unfold js_slice, rel_index.
  destruct (Z.ltb_spec a 0), (Z.ltb_spec b 0); try lia.
  rewrite !Z.min_l by lia. rewrite Z.max_l by lia. reflexivity.
Qed.

Lemma js_slice_length {A : Type} (l : list A) (a b : Z) :
  0 <= a <= b -> b <= js_length l ->
  js_length (js_slice l a b) = b - a.
Proof.
  intros Hab Hb. rewrite js_slice_inner by assumption.
  unfold js_length in *. rewrite length_firstn, length_skipn. lia.
Qed.

Lemma js_slice_all {A : Type} (l : list A) : js_slice l 0 (js_length l) = l.
Proof.
  rewrite js_slice_inner by (unfold js_length; lia).
  unfold js_length. simpl. rewrite Z.sub_0_r, Nat2Z.id. apply firstn_all.
Qed.

Lemma nth_error_map_seq {A : Type} (f : nat -> A) (n i : nat) :
  (i < n)%nat -> nth_error (map f (seq 0 n)) i = Some (f i).
Proof.
  intros Hi. rewrite nth_error_map.
  rewrite (nth_error_nth' (seq 0 n) 0%nat) by (rewrite length_seq; exact Hi).
  rewrite seq_nth by exact Hi. reflexivity.
Qed.

Lemma nth_error_map_seq_inv {A : Type} (f : nat -> A) (n i : nat) (x : A) :
  nth_error (map f (seq 0 n)) i = Some x -> (i < n)%nat /\ x = f i.
Proof.
  intros H. assert (Hi : (i < n)%nat).
  { assert (Hn : nth_error (map f (seq 0 n)) i <> None) by congruence.
    apply nth_error_Some in Hn. now rewrite length_map, length_seq in Hn. }
  rewrite nth_error_map_seq in H by exact Hi. split; congruence.
Qed.

(** ** Trimming *)

Lemma trim_start_blank (s : js_string) :
  trim_start s = [] <-> forallb is_white_space s = true.
Proof.
  induction s as [|c s IH]; simpl.
  - split; reflexivity.
  - destruct (is_white_space c); simpl; [exact IH|]. split; discriminate.
Qed.

Lemma trim_start_head (s : js_string) (c : code_unit) (rest : js_string) :
  trim_start s = c :: rest -> is_white_space c = false.
Proof.
  induction s as [|a s IH]; simpl; [discriminate|].
  destruct (is_white_space a) eqn:Ha; [exact IH|].
  intros H. injection H as <- _. exact Ha.
Qed.

Lemma forallb_rev {A : Type} (f : A -> bool) (l : list A) :
  forallb f (rev l) = forallb f l.
Proof.
  induction l as [|a l IH]; simpl; [reflexivity|].
  rewrite forallb_app, IH. simpl. rewrite andb_true_r. apply andb_comm.
Qed.

(** [trim] gives the empty string exactly on the strings that are empty
    or made of white space only. *)
Lemma trim_blank (s : js_string) :
  trim s = [] <-> forallb is_white_space s = true.
Proof.
  unfold trim. rewrite <- trim_start_blank. split.
  - intros H. apply (f_equal (@rev code_unit)) in H. rewrite rev_involutive in H.
    simpl in H. apply trim_start_blank in H. rewrite forallb_rev in H.
    destruct (trim_start s) as [|c rest] eqn:Hs; [reflexivity|].
    apply trim_start_head in Hs. simpl in H. rewrite Hs in H. discriminate.
  - intros ->. reflexivity.
Qed.

Example trim_sample : trim (str "  a b  ") = str "a b".
Proof. reflexivity. Qed.

(** ** The ceiling of a quotient *)

Lemma ceil_div_spec (a b : Z) :
  0 < b -> (ceil_div a b - 1) * b < a <= ceil_div a b * b.
Proof.
  intros Hb. unfold ceil_div.
  pose proof (Z.div_mod (a + b - 1) b ltac:(lia)) as E.
  pose proof (Z.mod_pos_bound (a + b - 1) b Hb) as M. nia.
Qed.

Lemma ceil_div_sub (a b : Z) : 0 < b -> ceil_div (a - b) b = ceil_div a b - 1.
Proof.
  intros Hb. unfold ceil_div.
  replace (a - b + b - 1) with (a + b - 1 + (-1) * b) by lia.
  rewrite Z.div_add by lia. lia.
Qed.

Lemma ceil_div_le_1 (a b : Z) : 0 < b -> a <= b -> ceil_div a b <= 1.
Proof. intros Hb Ha. pose proof (ceil_div_spec a b Hb). nia. Qed.

Lemma ceil_div_ge_2 (a b : Z) : 0 < b -> b < a -> 2 <= ceil_div a b.
Proof. intros Hb Ha. pose proof (ceil_div_spec a b Hb). nia. Qed.

(** ** The chunker *)

Lemma splitText_loop_acc fuel text W o start acc :
  splitText_loop fuel text W o start acc =
  option_map (app acc) (splitText_loop fuel text W o start []).
Proof.
  revert start acc. induction fuel as [|fuel IH]; intros start acc; simpl.
  - reflexivity.
  - destruct (start <? js_length text); simpl.
    + destruct (Z.min (start + W) (js_length text) =? js_length text); simpl.
      * reflexivity.
      * rewrite IH. rewrite (IH _ [_]).
        destruct (splitText_loop fuel text W o _ []); simpl.
        -- now rewrite <- app_assoc.
        -- reflexivity.
    + now rewrite app_nil_r.
Qed.

Lemma splitSpans_loop_acc fuel len W o start acc :
  splitSpans_loop fuel len W o start acc =
  option_map (app acc) (splitSpans_loop fuel len W o start []).
Proof.
  revert start acc. induction fuel as [|fuel IH]; intros start acc; simpl.
  - reflexivity.
  - destruct (start <? len); simpl.
    + destruct (Z.min (start + W) len =? len); simpl.
      * reflexivity.
      * rewrite IH. rewrite (IH _ [_]).
        destruct (splitSpans_loop fuel len W o _ []); simpl.
        -- now rewrite <- app_assoc.
        -- reflexivity.
    + now rewrite app_nil_r.
Qed.

(** The chunks are the slices of the recorded spans. *)
Lemma splitText_loop_spans fuel text W o start spans :
  splitText_loop fuel text W o start (map (slice_of text) spans) =
  option_map (map (slice_of text))
    (splitSpans_loop fuel (js_length text) W o start spans).
Proof.
  revert start spans. induction fuel as [|fuel IH]; intros start spans; simpl.
  - reflexivity.
  - destruct (start <? js_length text); simpl; [|reflexivity].
    destruct (Z.min (start + W) (js_length text) =? js_length text); simpl.
    + now rewrite map_app.
    + rewrite <- IH. now rewrite map_app.
Qed.

Lemma splitText_spans fuel text W o :
  splitText fuel text W o =
  option_map (map (slice_of text)) (splitSpans fuel (js_length text) W o).
Proof. apply (splitText_loop_spans fuel text W o 0 []). Qed.

Section ValidChunker.

Variables (len W o : Z).
Hypothesis Hvalid : valid_config W o.

Lemma windows_from_last start :
  len <= start + W -> windows_from len W o start = 1%nat.
Proof.
  intros H. unfold windows_from. destruct Hvalid as [HW Ho].
  pose proof (ceil_div_le_1 (len - start - o) (W - o)). lia.
Qed.

Lemma windows_from_next start :
  start + W < len -> windows_from len W o start = S (windows_from len W o (start + (W - o))).
Proof.
  intros H. unfold windows_from. destruct Hvalid as [HW Ho].
  replace (len - (start + (W - o)) - o) with (len - start - o - (W - o)) by lia.
  rewrite ceil_div_sub by lia.
  pose proof (ceil_div_ge_2 (len - start - o) (W - o)). lia.
Qed.

(** One iteration: the loop ends when the window reaches the end of
    the text, and otherwise moves [start] forward by [W - o]. *)
Lemma splitSpans_loop_step fuel start acc :
  0 <= start < len ->
  splitSpans_loop (S fuel) len W o start acc =
  if len <=? start + W then Some (acc ++ [(start, len)])
  else splitSpans_loop fuel len W o (start + (W - o)) (acc ++ [(start, start + W)]).
Proof.
  intros Hs. destruct Hvalid as [HW Ho]. simpl.
  destruct (Z.ltb_spec start len); [|lia].
  destruct (Z.leb_spec len (start + W)).
  - rewrite Z.min_r by lia. now rewrite Z.eqb_refl.
  - rewrite Z.min_l by lia.
    destruct (Z.eqb_spec (start + W) len); [lia|].
    rewrite Z.max_r by lia. f_equal. lia.
Qed.

Lemma splitSpans_loop_closed fuel start :
  0 <= start < len -> (windows_from len W o start <= fuel)%nat ->
  splitSpans_loop fuel len W o start [] =
  Some (map (window len W o start) (seq 0 (windows_from len W o start))).
Proof.
  revert start. induction fuel as [|fuel IH]; intros start Hs Hf.
  - unfold windows_from in Hf. lia.
  - destruct Hvalid as [HW Ho]. rewrite splitSpans_loop_step by exact Hs.
    destruct (Z.leb_spec len (start + W)) as [Hl|Hl].
    + rewrite windows_from_last by exact Hl. simpl. unfold window. simpl.
      rewrite Z.add_0_r, Z.min_r by lia. reflexivity.
    + rewrite windows_from_next in * by exact Hl.
      rewrite splitSpans_loop_acc, IH by lia. simpl. f_equal.
      unfold window at 2. simpl. rewrite Z.add_0_r, Z.min_l by lia. f_equal.
      rewrite <- seq_shift, map_map. apply map_ext. intros k.
      unfold window. f_equal; [|f_equal]; lia.
Qed.

Lemma windows_from_0_le : 0 < len -> (windows_from len W o 0 <= Z.to_nat len)%nat.
Proof.
  intros Hl. unfold windows_from. destruct Hvalid as [HW Ho].
  pose proof (ceil_div_spec (len - 0 - o) (W - o) ltac:(lia)). nia.
Qed.

End ValidChunker.

Lemma splitSpans_empty fuel len W o :
  len <= 0 -> splitSpans (S fuel) len W o = Some [].
Proof.
  intros H. unfold splitSpans. simpl.
  destruct (Z.ltb_spec 0 len); [lia|reflexivity].
Qed.

Lemma splitSpans_closed fuel len W o :
  valid_config W o -> 0 < len -> (Z.to_nat len <= fuel)%nat ->
  splitSpans fuel len W o =
  Some (map (window len W o 0) (seq 0 (windows_from len W o 0))).
Proof.
  intros Hv Hl Hf. apply splitSpans_loop_closed; try assumption; try lia.
  pose proof (windows_from_0_le len W o Hv Hl). lia.
Qed.

Section Coverage.

Variables (text : js_string) (W o : Z).
Hypothesis Hvalid : valid_config W o.

Lemma slice_to_end start :
  0 <= start <= js_length text ->
  js_slice text start (js_length text) = skipn (Z.to_nat start) text.
Proof.
  intros Hs. rewrite js_slice_inner by lia.
  apply firstn_all2. rewrite length_skipn. unfold js_length in *. lia.
Qed.

(** The windows cut from [start] on cover the text from [start] on. *)
Lemma coverage_from fuel start spans :
  0 <= start < js_length text ->
  splitSpans_loop fuel (js_length text) W o start [] = Some spans ->
  exists rest,
    spans = (start, Z.min (start + W) (js_length text)) :: rest /\
    coverage o (map (slice_of text) spans) = skipn (Z.to_nat start) text.
Proof.
  revert start spans. induction fuel as [|fuel IH]; intros start spans Hs Hrun.
  - discriminate.
  - destruct Hvalid as [HW Ho].
    rewrite (splitSpans_loop_step _ W o Hvalid) in Hrun by exact Hs.
    destruct (Z.leb_spec (js_length text) (start + W)) as [Hl|Hl].
    + injection Hrun as <-. exists []. rewrite Z.min_r by lia. split; [reflexivity|].
      simpl. rewrite app_nil_r. unfold slice_of. simpl. now apply slice_to_end; lia.
    + rewrite splitSpans_loop_acc in Hrun.
      destruct (splitSpans_loop fuel (js_length text) W o (start + (W - o)) [])
        as [spans'|] eqn:Hrec; [|discriminate].
      injection Hrun as <-.
      destruct (IH (start + (W - o)) _ ltac:(lia) Hrec) as (rest' & -> & Hcov).
      eexists. rewrite (Z.min_l (start + W)) by lia. split; [reflexivity|].
      simpl in *. unfold slice_of at 1 2. simpl.
      set (e' := Z.min (start + (W - o) + W) (js_length text)) in *.
      assert (He' : start + W < e' <= js_length text) by (unfold e'; lia).
      assert (Hlen : js_length (slice_of text (start + (W - o), e')) = e' - (start + (W - o))).
      { unfold slice_of. simpl. apply js_slice_length; lia. }
      assert (E : skipn (Z.to_nat o) (slice_of text (start + (W - o), e')) ++
                  List.concat (map (skipn (Z.to_nat o)) (map (slice_of text) rest'))
                  = skipn (Z.to_nat o) (skipn (Z.to_nat (start + (W - o))) text)).
      { rewrite <- Hcov. rewrite skipn_app. f_equal.
        replace (Z.to_nat o - List.length (slice_of text ((start + (W - o))%Z, e')))%nat
          with 0%nat by (unfold js_length in Hlen; lia).
        reflexivity. }
      unfold slice_of in E at 1. simpl in E. rewrite E.
      rewrite skipn_skipn. rewrite js_slice_inner by lia.
      replace (Z.to_nat o + Z.to_nat (start + (W - o)))%nat
        with (Z.to_nat (start + W - start) + Z.to_nat start)%nat by lia.
      rewrite <- skipn_skipn. apply firstn_skipn.
Qed.

Lemma splitSpans_coverage fuel spans :
  splitSpans fuel (js_length text) W o = Some spans ->
  coverage o (map (slice_of text) spans) = text.
Proof.
  intros Hrun. destruct (Z.ltb_spec 0 (js_length text)) as [Hl|Hl].
  - destruct (coverage_from fuel 0 spans ltac:(lia) Hrun) as (rest & _ & Hcov).
    exact Hcov.
  - destruct fuel as [|fuel]; [discriminate|].
    rewrite splitSpans_empty in Hrun by exact Hl. injection Hrun as <-.
    destruct text; [reflexivity|]. unfold js_length in Hl. simpl in Hl. lia.
Qed.

(** Consecutive windows: the next one starts [o] code units before the
    end of this one, and ends after it. *)
Lemma window_consecutive start i a b a' b' :
  0 <= start ->
  nth_error (map (window (js_length text) W o start)
               (seq 0 (windows_from (js_length text) W o start))) i = Some (a, b) ->
  nth_error (map (window (js_length text) W o start)
               (seq 0 (windows_from (js_length text) W o start))) (S i) = Some (a', b') ->
  0 <= a /\ b = a + W /\ a' = b - o /\ a < a' /\ b < b' /\ b' <= js_length text.
Proof.
  intros Hs H1 H2. destruct Hvalid as [HW Ho].
  apply nth_error_map_seq_inv in H1 as [_ E1].
  apply nth_error_map_seq_inv in H2 as [Hi E2].
  unfold windows_from in Hi.
  pose proof (ceil_div_spec (js_length text - start - o) (W - o) ltac:(lia)) as C.
  set (c := ceil_div (js_length text - start - o) (W - o)) in *.
  assert (Hc : Z.of_nat i + 2 <= c) by lia.
  unfold window in E1, E2. rewrite Nat2Z.inj_succ in E2.
  pose proof (f_equal fst E1) as Ea. pose proof (f_equal snd E1) as Eb.
  pose proof (f_equal fst E2) as Ea'. pose proof (f_equal snd E2) as Eb'.
  cbn [fst snd] in Ea, Eb, Ea', Eb'. clear E1 E2. subst a b a' b'.
  assert (start + Z.of_nat i * (W - o) + W < js_length text) by nia.
  rewrite (Z.min_l (start + Z.of_nat i * (W - o) + W)) by lia.
  repeat split; try nia; lia.
Qed.

End Coverage.

(** More fuel does not change a result. *)
Lemma splitText_loop_mono fuel fuel' text W o start acc r :
  (fuel <= fuel')%nat ->
  splitText_loop fuel text W o start acc = Some r ->
  splitText_loop fuel' text W o start acc = Some r.
Proof.
  revert fuel' start acc. induction fuel as [|fuel IH]; intros fuel' start acc Hle Hrun.
  - discriminate.
  - destruct fuel' as [|fuel']; [lia|]. simpl in *.
    destruct (start <? js_length text); [|exact Hrun].
    destruct (Z.min (start + W) (js_length text) =? js_length text); [exact Hrun|].
    apply IH; [lia|exact Hrun].
Qed.

(** One iteration of the loop when [overlap < chunkSize]. *)
Lemma splitText_loop_step fuel text W o start acc :
  o < W -> 0 <= start < js_length text ->
  splitText_loop (S fuel) text W o start acc =
  if js_length text <=? start + W
  then Some (acc ++ [js_slice text start (js_length text)])
  else splitText_loop fuel text W o (start + (W - o))
         (acc ++ [js_slice text start (start + W)]).
Proof.
  intros Ho Hs. simpl.
  destruct (Z.ltb_spec start (js_length text)); [|lia].
  destruct (Z.leb_spec (js_length text) (start + W)).
  - rewrite Z.min_r by lia. now rewrite Z.eqb_refl.
  - rewrite Z.min_l by lia.
    destruct (Z.eqb_spec (start + W) (js_length text)); [lia|].
    rewrite Z.max_r by lia. f_equal. lia.
Qed.

(** The loop returns as soon as [overlap < chunkSize]: [start] grows by
    [chunkSize - overlap] in every iteration that does not end the loop. *)
Lemma splitText_loop_terminates fuel text W o start acc :
  o < W -> 0 <= start ->
  (Z.to_nat (js_length text - start) < fuel)%nat ->
  exists chunks, splitText_loop fuel text W o start acc = Some chunks.
Proof.
  intros Ho. revert start acc. induction fuel as [|fuel IH]; intros start acc Hs Hf.
  - lia.
  - destruct (Z.ltb_spec start (js_length text)) as [Hl|Hl].
    + rewrite splitText_loop_step by lia.
      destruct (js_length text <=? start + W); [eauto|].
      apply IH; lia.
    + simpl. destruct (Z.ltb_spec start (js_length text)); [lia|eauto].
Qed.

(** When [overlap >= chunkSize] and the text is longer than [chunkSize],
    an iteration that starts at 0 pushes the chunk [text.slice(0, chunkSize)]
    and leaves [start] at 0. *)
Lemma splitText_loop_stuck_step fuel text W o acc :
  W <= o -> W < js_length text -> 0 < js_length text ->
  splitText_loop (S fuel) text W o 0 acc =
  splitText_loop fuel text W o 0 (acc ++ [js_slice text 0 W]).
Proof.
  intros Ho Hl Hl0. simpl.
  destruct (Z.ltb_spec 0 (js_length text)); [|lia].
  rewrite Z.min_l by lia.
  destruct (Z.eqb_spec W (js_length text)); [lia|].
  now rewrite Z.max_l by lia.
Qed.

(** So no number of iterations makes the loop return its chunks. The
    list of the model grows without bound; a JavaScript array does not,
    and how the engine ends such a run is outside the model. *)
Lemma splitText_loop_diverges fuel text W o acc :
  W <= o -> W < js_length text -> 0 < js_length text ->
  splitText_loop fuel text W o 0 acc = None.
Proof.
  intros Ho Hl Hl0. revert acc. induction fuel as [|fuel IH]; intros acc.
  - reflexivity.
  - rewrite splitText_loop_stuck_step by assumption. apply IH.
Qed.

Lemma splitText_empty fuel W o : splitText (S fuel) [] W o = Some [].
Proof. reflexivity. Qed.

Lemma splitText_short fuel text W o :
  0 < js_length text <= W -> splitText (S fuel) text W o = Some [text].
Proof.
  intros Hl. unfold splitText. simpl.
  destruct (Z.ltb_spec 0 (js_length text)); [|lia].
  rewrite Z.min_r by lia. rewrite Z.eqb_refl. now rewrite js_slice_all.
Qed.

Lemma splitText_returns text W o :
  o < W ->
  exists chunks, forall fuel, (List.length text < fuel)%nat ->
    splitText fuel text W o = Some chunks.
Proof.
  intros Ho.
  destruct (splitText_loop_terminates (S (List.length text)) text W o 0 [] Ho)
    as [chunks Hrun]; [lia|unfold js_length; lia|].
  exists chunks. intros fuel Hf.
  apply (splitText_loop_mono (S (List.length text))); [lia|exact Hrun].
Qed.

Lemma chunk_overlap (text : js_string) W o a b a' b' :
  valid_config W o ->
  0 <= a -> b = a + W -> a' = b - o -> b < b' -> b' <= js_length text ->
  suffix o (js_slice text a b) = firstn (Z.to_nat o) (js_slice text a' b') /\
  js_length (firstn (Z.to_nat o) (js_slice text a' b')) = o.
Proof.
  intros [HW Ho] Ha -> -> Hb Hb'.
  assert (L1 : js_length (js_slice text a (a + W)) = W)
    by (rewrite js_slice_length; lia).
  assert (L2 : js_length (js_slice text (a + W - o) b') = b' - (a + W - o))
    by (rewrite js_slice_length; lia).
  split.
  - unfold suffix.
    replace (List.length (js_slice text a (a + W)) - Z.to_nat o)%nat
      with (Z.to_nat (W - o)) by (unfold js_length in L1; lia).
    rewrite !js_slice_inner by lia.
    rewrite skipn_firstn_comm, skipn_skipn, firstn_firstn.
    replace (Z.to_nat (a + W - a) - Z.to_nat (W - o))%nat with (Z.to_nat o) by lia.
    replace (Nat.min (Z.to_nat o) (Z.to_nat (b' - (a + W - o)))) with (Z.to_nat o) by lia.
    replace (Z.to_nat (W - o) + Z.to_nat a)%nat with (Z.to_nat (a + W - o)) by lia.
    reflexivity.
  - unfold js_length in *. rewrite length_firstn. lia.
Qed.

(** C1. For every text and every valid configuration (windowSize > 0,
    0 <= overlap < windowSize), split returns chunks that are the slices of
    the recorded spans; the chunks taken in order, each later one without
    its first [overlap] code units, give back the text; and any two
    consecutive spans [(a,b)], [(a',b')] share exactly the [overlap]
    positions from [a' = b - overlap] to [b]: the last [overlap] code units
    of a chunk are the first [overlap] code units of the next one. (This
    holds for the final pair as well.) *)
Theorem splitText_covers_with_overlap (text : js_string) (W o : Z) :
  valid_config W o ->
  exists chunks spans,
    (forall fuel, (List.length text < fuel)%nat ->
       splitText fuel text W o = Some chunks /\
       splitSpans fuel (js_length text) W o = Some spans) /\
    chunks = map (slice_of text) spans /\
    coverage o chunks = text /\
    (forall i a b a' b',
       nth_error spans i = Some (a, b) ->
       nth_error spans (S i) = Some (a', b') ->
       0 <= a < a' /\ a' = b - o /\ b < b' <= js_length text) /\
    (forall i c c',
       nth_error chunks i = Some c ->
       nth_error chunks (S i) = Some c' ->
       suffix o c = firstn (Z.to_nat o) c' /\
       js_length (firstn (Z.to_nat o) c') = o).
Proof.
  intros Hv. pose proof Hv as [HW Ho].
  destruct (Z.ltb_spec 0 (js_length text)) as [Hl|Hl].
  - set (spans := map (window (js_length text) W o 0)
                    (seq 0 (windows_from (js_length text) W o 0))).
    assert (Hspans : forall fuel, (List.length text < fuel)%nat ->
              splitSpans fuel (js_length text) W o = Some spans).
    { intros fuel Hf. apply splitSpans_closed; try assumption.
      unfold js_length. lia. }
    assert (Hcons : forall i a b a' b',
              nth_error spans i = Some (a, b) ->
              nth_error spans (S i) = Some (a', b') ->
              0 <= a /\ b = a + W /\ a' = b - o /\ a < a' /\ b < b' /\
              b' <= js_length text).
    { intros i a b a' b'. apply (window_consecutive text W o Hv 0). lia. }
    exists (map (slice_of text) spans), spans.
    split; [|split; [reflexivity|split; [|split]]].
    + intros fuel Hf. split; [|now apply Hspans].
      rewrite splitText_spans, Hspans by assumption. reflexivity.
    + apply (splitSpans_coverage text W o Hv (S (List.length text))).
      apply Hspans. lia.
    + intros i a b a' b' H1 H2.
      destruct (Hcons _ _ _ _ _ H1 H2) as (? & ? & ? & ? & ? & ?). lia.
    + intros i c c' H1 H2. rewrite nth_error_map in H1, H2.
      destruct (nth_error spans i) as [[a b]|] eqn:E1; [|discriminate].
      destruct (nth_error spans (S i)) as [[a' b']|] eqn:E2; [|discriminate].
      injection H1 as <-. injection H2 as <-.
      destruct (Hcons _ _ _ _ _ E1 E2) as (? & ? & ? & ? & ? & ?).
      now apply (chunk_overlap text W o a b a' b').
  - assert (text = []) as ->.
    { destruct text; [reflexivity|]. unfold js_length in Hl. simpl in Hl. lia. }
    exists [], [].
    split; [|split; [reflexivity|split; [reflexivity|split]]].
    + intros [|fuel] Hf; [simpl in Hf; lia|split; reflexivity].
    + intros [|i]; discriminate.
    + intros [|i]; discriminate.
Qed.

Lemma splitText_covers_with_overlap_witness :
  valid_config 4 1 /\
  exists chunks spans,
    (forall fuel, (List.length (str "abcdefghij") < fuel)%nat ->
       splitText fuel (str "abcdefghij") 4 1 = Some chunks /\
       splitSpans fuel (js_length (str "abcdefghij")) 4 1 = Some spans) /\
    chunks = map (slice_of (str "abcdefghij")) spans /\
    coverage 1 chunks = str "abcdefghij" /\
    (forall i a b a' b',
       nth_error spans i = Some (a, b) ->
       nth_error spans (S i) = Some (a', b') ->
       0 <= a < a' /\ a' = b - 1 /\ b < b' <= js_length (str "abcdefghij")) /\
    (forall i c c',
       nth_error chunks i = Some c ->
       nth_error chunks (S i) = Some c' ->
       suffix 1 c = firstn (Z.to_nat 1) c' /\
       js_length (firstn (Z.to_nat 1) c') = 1).
Proof.
  split.
  - unfold valid_config. lia.
  - apply (splitText_covers_with_overlap (str "abcdefghij") 4 1).
    unfold valid_config. lia.
Defined.

Example splitText_abcdefghij :
  splitText 11 (str "abcdefghij") 4 1 = Some [str "abcd"; str "defg"; str "ghij"].
Proof. reflexivity. Qed.

(** C2. For a valid configuration: a text longer than windowSize gives
    exactly ceil((len - overlap) / (windowSize - overlap)) chunks; a text of
    2400 code units with windowSize 1000 and overlap 200 gives the three
    chunks at [0,1000), [800,1800) and [1600,2400), the last of length 800;
    the empty text gives the empty sequence; and a non-empty text no longer
    than windowSize gives the single chunk [text]. *)
Theorem splitText_chunk_count (text : js_string) (W o : Z) :
  valid_config W o ->
  (W < js_length text ->
     exists chunks,
       (forall fuel, (List.length text < fuel)%nat ->
          splitText fuel text W o = Some chunks) /\
       js_length chunks = ceil_div (js_length text - o) (W - o)) /\
  (js_length text = 2400 ->
     forall fuel, (3 <= fuel)%nat ->
       splitText fuel text 1000 200 =
       Some [js_slice text 0 1000; js_slice text 800 1800; js_slice text 1600 2400] /\
       js_length (js_slice text 1600 2400) = 800) /\
  (text = [] -> forall fuel, (1 <= fuel)%nat -> splitText fuel text W o = Some []) /\
  (0 < js_length text <= W ->
     forall fuel, (1 <= fuel)%nat -> splitText fuel text W o = Some [text]).
Proof.
  intros Hv. pose proof Hv as [HW Ho]. repeat split.
  - intros Hl.
    exists (map (slice_of text)
              (map (window (js_length text) W o 0)
                 (seq 0 (windows_from (js_length text) W o 0)))).
    split.
    + intros fuel Hf. rewrite splitText_spans.
      rewrite splitSpans_closed; try assumption; try lia; try reflexivity.
      unfold js_length. lia.
    + unfold js_length at 1. rewrite !length_map, length_seq.
      unfold windows_from.
      pose proof (ceil_div_ge_2 (js_length text - 0 - o) (W - o) ltac:(lia) ltac:(lia)).
      replace (js_length text - 0 - o) with (js_length text - o) in * by lia. lia.
  - rewrite splitText_spans. unfold splitSpans. rewrite H.
    assert (Hv' : valid_config 1000 200) by (unfold valid_config; lia).
    rewrite (splitSpans_loop_closed 2400 1000 200 Hv' fuel 0);
      [reflexivity|lia|exact H0].
  - rewrite js_slice_length; lia.
  - intros ->. intros [|fuel] Hf; [lia|reflexivity].
  - intros Hl [|fuel] Hf; [lia|]. now apply splitText_short.
Qed.

Lemma splitText_chunk_count_witness :
  valid_config 4 1 /\
  (4 < js_length (str "abcdefghij") ->
     exists chunks,
       (forall fuel, (List.length (str "abcdefghij") < fuel)%nat ->
          splitText fuel (str "abcdefghij") 4 1 = Some chunks) /\
       js_length chunks = ceil_div (js_length (str "abcdefghij") - 1) (4 - 1)).
Proof.
  split.
  - unfold valid_config. lia.
  - apply (splitText_chunk_count (str "abcdefghij") 4 1).
    unfold valid_config. lia.
Defined.

(** C9. For a valid configuration split returns for every text, with any
    fuel above the length of the text; every iteration that starts inside
    the text either ends the loop (the window reaches the end of the text)
    or moves [start] forward by windowSize - overlap > 0. *)
Theorem splitText_terminates (text : js_string) (W o : Z) :
  valid_config W o ->
  (exists chunks, forall fuel, (List.length text < fuel)%nat ->
     splitText fuel text W o = Some chunks) /\
  (forall fuel start acc, 0 <= start < js_length text ->
     splitText_loop (S fuel) text W o start acc =
     if js_length text <=? start + W
     then Some (acc ++ [js_slice text start (js_length text)])
     else splitText_loop fuel text W o (start + (W - o))
            (acc ++ [js_slice text start (start + W)])) /\
  W - o > 0.
Proof.
  intros [HW Ho]. repeat split.
  - apply splitText_returns. lia.
  - intros fuel start acc Hs. apply splitText_loop_step; lia.
  - lia.
Qed.

Lemma splitText_terminates_witness :
  valid_config 1000 200 /\
  exists chunks, forall fuel, (List.length (str "no text") < fuel)%nat ->
     splitText fuel (str "no text") 1000 200 = Some chunks.
Proof.
  split.
  - unfold valid_config. lia.
  - apply (splitText_terminates (str "no text") 1000 200).
    unfold valid_config. lia.
Defined.

(** C6, as claimed, fails: split does not check its configuration. With
    windowSize = 0 and overlap = 0 the empty text gives the empty chunk
    sequence, and with overlap = windowSize = 5 the text "ab" gives the
    single chunk "ab". *)
Lemma splitText_invalid_config_returns :
  ~ valid_config 0 0 /\ splitText 1 [] 0 0 = Some [] /\
  ~ valid_config 5 5 /\ splitText 1 (str "ab") 5 5 = Some [str "ab"] /\
  ~ (forall fuel text W o chunks,
       ~ valid_config W o -> splitText fuel text W o <> Some chunks).
Proof.
  assert (H00 : ~ valid_config 0 0) by (unfold valid_config; lia).
  assert (H55 : ~ valid_config 5 5) by (unfold valid_config; lia).
  repeat split; try assumption.
  intros Hclaim. apply (Hclaim 1%nat [] 0 0 [] H00). reflexivity.
Qed.

(** C6, amended. split never checks windowSize and overlap. When the
    preconditions are violated the call still returns a chunk sequence if
    the text is empty (no chunk), if it is non-empty and no longer than
    windowSize (the text as single chunk), or if overlap < windowSize. In
    the remaining case (overlap >= windowSize and a non-empty text longer
    than windowSize) every iteration pushes the chunk
    [text.slice(0, windowSize)] and leaves [start] at 0, and the call
    returns no chunk sequence, whatever the number of iterations. *)
Theorem splitText_invalid_config (text : js_string) (W o : Z) :
  ~ valid_config W o ->
  (text = [] -> forall fuel, splitText (S fuel) text W o = Some []) /\
  (0 < js_length text <= W ->
     forall fuel, splitText (S fuel) text W o = Some [text]) /\
  (o < W ->
     exists chunks, forall fuel, (List.length text < fuel)%nat ->
       splitText fuel text W o = Some chunks) /\
  (W <= o -> W < js_length text -> 0 < js_length text ->
     (forall fuel chunks,
        splitText_loop (S fuel) text W o 0 chunks =
        splitText_loop fuel text W o 0 (chunks ++ [js_slice text 0 W])) /\
     (forall fuel chunks, splitText fuel text W o <> Some chunks)).
Proof.
  intros _. repeat split.
  - intros -> fuel. reflexivity.
  - intros Hl fuel. now apply splitText_short.
  - apply splitText_returns.
  - intros fuel chunks. now apply splitText_loop_stuck_step.
  - intros fuel chunks. unfold splitText.
    rewrite splitText_loop_diverges by assumption. discriminate.
Qed.

Lemma splitText_invalid_config_witness :
  ~ valid_config (-1) (-3) /\
  (-3 < -1 ->
     exists chunks, forall fuel, (List.length (str "abcd") < fuel)%nat ->
       splitText fuel (str "abcd") (-1) (-3) = Some chunks).
Proof.
  split.
  - unfold valid_config. lia.
  - apply (splitText_invalid_config (str "abcd") (-1) (-3)).
    unfold valid_config. lia.
Defined.

(** With windowSize = -1 and overlap = -3 on "abcd": the negative end of
    the first slice counts from the end of the text, the second slice
    (from 2 to 1) is empty, and [start] is then 4. *)
Example splitText_negative_window :
  splitText 5 (str "abcd") (-1) (-3) = Some [str "abc"; []].
Proof. reflexivity. Qed.

(** ** The retry routine *)

Lemma count_calls_cons_call model inputs evs :
  count_calls (EmbeddingsCreate model inputs :: evs) = 1 + count_calls evs.
Proof.
  unfold count_calls, js_length. cbn [filter is_provider_call List.length]. lia.
Qed.

Lemma count_calls_cons_sleep ms evs :
  count_calls (Sleep ms :: evs) = count_calls evs.
Proof. reflexivity. Qed.

Lemma count_calls_nonneg evs : 0 <= count_calls evs.
Proof. unfold count_calls, js_length. lia. Qed.

Lemma backoff_bounds (attempt : Z) (r : Q) :
  (0 <= r)%Q -> (r < 1)%Q ->
  exists x : Q,
    backoffMs attempt r = Qmin x 8000 /\
    (1000 * inject_Z (2 ^ attempt) <= x)%Q /\
    (x <= 1000 * inject_Z (2 ^ attempt) + 250)%Q.
Proof.
  intros H0 H1. exists (1000 * inject_Z (2 ^ attempt) + r * 250)%Q.
  split; [reflexivity|]. split; lra.
Qed.

Section Retry.

Variables (E : env) (model : js_string) (inputs : list js_string) (maxRetries : Z).
Hypothesis Hrandom : random_in_unit E.

(** One turn of the [while] loop. *)
Lemma retry_loop_step fuel attempt lastErr tr :
  retry_loop E (S fuel) model inputs maxRetries attempt lastErr tr =
  if attempt <? maxRetries then
    match embeddings_create E tr model inputs with
    | inr data => (Return data, tr ++ [EmbeddingsCreate model inputs])
    | inl err =>
        if is429 (status_of err) || is5xx (status_of err)
        then retry_loop E fuel model inputs maxRetries (attempt + 1) (Some err)
               ((tr ++ [EmbeddingsCreate model inputs]) ++
                [Sleep (backoffMs attempt (math_random E (tr ++ [EmbeddingsCreate model inputs])))])
        else (Throw (ApiError err), tr ++ [EmbeddingsCreate model inputs])
    end
  else (Throw (thrown_last lastErr), tr).
Proof.
  simpl. destruct (attempt <? maxRetries); [|reflexivity].
  unfold bind, call.
  destruct (embeddings_create E tr model inputs) as [err|data]; [|reflexivity].
  destruct (is429 (status_of err) || is5xx (status_of err)); reflexivity.
Qed.

Lemma retry_loop_spec fuel :
  forall attempt lastErr tr out tr',
    (Z.to_nat (maxRetries - attempt) < fuel)%nat ->
    retry_loop E fuel model inputs maxRetries attempt lastErr tr = (out, tr') ->
    exists evs,
      tr' = tr ++ evs /\
      out <> OutOfFuel /\
      count_calls evs <= Z.max 0 (maxRetries - attempt) /\
      (forall p rest, evs = p ++ (EmbeddingsCreate model inputs) :: rest ->
         after_attempt E model inputs maxRetries (attempt + count_calls p)
           (tr ++ p) rest out) /\
      (forall ev, In ev evs -> ev = (EmbeddingsCreate model inputs) \/ exists ms, ev = Sleep ms) /\
      (evs = [] -> maxRetries <= attempt /\ out = Throw (thrown_last lastErr)) /\
      (evs <> [] -> exists rest, evs = (EmbeddingsCreate model inputs) :: rest /\ attempt < maxRetries).
Proof.
  induction fuel as [|fuel IH]; intros attempt lastErr tr out tr' Hfuel Hrun.
  - lia.
  - rewrite retry_loop_step in Hrun.
    destruct (Z.ltb_spec attempt maxRetries) as [Hlt|Hge].
    + destruct (embeddings_create E tr model inputs) as [err|data] eqn:Hres.
      * destruct (is429 (status_of err) || is5xx (status_of err)) eqn:Hretry.
        -- (* a retryable error: sleep, then the next attempt *)
           set (d := backoffMs attempt (math_random E (tr ++ [EmbeddingsCreate model inputs]))) in *.
           apply IH in Hrun; [|lia].
           destruct Hrun as (evs & -> & Hout & Hcount & Hsplit & Hall & Hnil & Hcons).
           exists ((EmbeddingsCreate model inputs) :: Sleep d :: evs).
           split; [now rewrite <- !app_assoc|].
           split; [exact Hout|].
           split; [rewrite count_calls_cons_call, count_calls_cons_sleep; lia|].
           split; [|split; [|split]].
           ++ intros p rest Hp. destruct p as [|e p].
              ** simpl in Hp. injection Hp as <-.
                 unfold after_attempt. rewrite app_nil_r, Hres, Hretry.
                 unfold count_calls, js_length. simpl. rewrite Z.add_0_r.
                 destruct (Hrandom (tr ++ [EmbeddingsCreate model inputs])) as [R0 R1].
                 destruct (backoff_bounds attempt _ R0 R1) as (x & Hd & Hlo & Hhi).
                 exists x, evs. fold d in Hd. rewrite <- Hd.
                 split; [reflexivity|]. split; [exact Hlo|]. split; [exact Hhi|].
                 split.
                 --- intros Hevs. destruct (Hnil Hevs) as [Hm ->]. split; [reflexivity|lia].
                 --- intros Hevs. destruct (Hcons Hevs) as (rest'' & -> & Hm).
                     exists rest''. split; [reflexivity|lia].
              ** simpl in Hp. injection Hp as <- Hp.
                 destruct p as [|e p]; [discriminate Hp|].
                 simpl in Hp. injection Hp as <- Hp.
                 specialize (Hsplit p rest Hp).
                 rewrite count_calls_cons_call, count_calls_cons_sleep.
                 replace (attempt + (1 + count_calls p)) with (attempt + 1 + count_calls p) by lia.
                 replace (tr ++ (EmbeddingsCreate model inputs) :: Sleep d :: p)
                   with (((tr ++ [EmbeddingsCreate model inputs]) ++ [Sleep d]) ++ p)
                   by now rewrite <- !app_assoc.
                 exact Hsplit.
           ++ intros ev [<-|[<-|Hin]]; [now left|right; now exists d|now apply Hall].
           ++ discriminate.
           ++ intros _. exists (Sleep d :: evs). split; [reflexivity|exact Hlt].
        -- (* another error: thrown at once *)
           injection Hrun as <- <-.
           exists [EmbeddingsCreate model inputs]. split; [reflexivity|]. split; [discriminate|].
           split; [rewrite count_calls_cons_call; unfold count_calls, js_length; simpl; lia|].
           split; [|split; [|split]].
           ++ intros p rest Hp. destruct p as [|e p].
              ** simpl in Hp. injection Hp as <-.
                 unfold after_attempt. rewrite app_nil_r, Hres, Hretry. now split.
              ** simpl in Hp. injection Hp as _ Hp. now destruct p.
           ++ intros ev [<-|[]]. now left.
           ++ discriminate.
           ++ intros _. exists []. split; [reflexivity|exact Hlt].
      * (* the call succeeded *)
        injection Hrun as <- <-.
        exists [EmbeddingsCreate model inputs]. split; [reflexivity|]. split; [discriminate|].
        split; [rewrite count_calls_cons_call; unfold count_calls, js_length; simpl; lia|].
        split; [|split; [|split]].
        -- intros p rest Hp. destruct p as [|e p].
           ++ simpl in Hp. injection Hp as <-.
              unfold after_attempt. rewrite app_nil_r, Hres. now split.
           ++ simpl in Hp. injection Hp as _ Hp. now destruct p.
        -- intros ev [<-|[]]. now left.
        -- discriminate.
        -- intros _. exists []. split; [reflexivity|exact Hlt].
    + (* the attempts are used up *)
      injection Hrun as <- <-.
      exists []. split; [now rewrite app_nil_r|]. split; [discriminate|].
      split; [unfold count_calls, js_length; simpl; lia|].
      split; [|split; [|split]].
      * intros p rest Hp. now destruct p.
      * intros ev [].
      * intros _. split; [lia|reflexivity].
      * intros Hne. now contradiction Hne.
Qed.

End Retry.

(** The test [is429 || is5xx] of the source, in numbers. *)
Lemma retryable_spec (status : option Z) :
  is429 status || is5xx status = true <->
  exists s, status = Some s /\ (s = 429 \/ 500 <= s < 600).
Proof.
  destruct status as [s|]; simpl.
  - rewrite orb_true_iff, andb_true_iff, Z.eqb_eq, Z.leb_le, Z.ltb_lt. split.
    + intros H. exists s. split; [reflexivity|lia].
    + intros (s' & Hs & H). injection Hs as <-. lia.
  - split; [discriminate|]. now intros (s & Hs & _).
Qed.

(** C3. A run of the retry routine, with [Math.random] in [0, 1), always
    ends, and adds to the trace nothing but calls of the provider and
    sleeps, with at most [maxRetries] calls. With [maxRetries <= 0] it
    makes no call and throws [undefined]; otherwise it starts with a call.
    After the call made with the attempt counter at [a] (the number of
    calls before it): a result is returned at once; an error whose status
    is neither 429 nor in [500, 600) is thrown at once, with no sleep and
    no other call; an error with status 429 or in [500, 600) is followed
    by a sleep of [min(x, 8000)] ms with
    [1000 * 2^a <= x <= 1000 * 2^a + 250], and then by the next call when
    [a + 1 < maxRetries], and else by the throw of this last error. *)
Theorem retry_policy (E : env) (model : js_string) (inputs : list js_string)
    (maxRetries : Z) (tr tr' : trace) (out : outcome (list embedding)) :
  random_in_unit E ->
  createEmbeddingsWithRetry E model inputs maxRetries tr = (out, tr') ->
  exists evs,
    tr' = tr ++ evs /\
    out <> OutOfFuel /\
    count_calls evs <= Z.max 0 maxRetries /\
    (forall ev, In ev evs ->
       ev = EmbeddingsCreate model inputs \/ exists ms, ev = Sleep ms) /\
    (maxRetries <= 0 -> evs = [] /\ out = Throw Undefined) /\
    (0 < maxRetries -> exists rest, evs = EmbeddingsCreate model inputs :: rest) /\
    (forall p rest, evs = p ++ EmbeddingsCreate model inputs :: rest ->
       match embeddings_create E (tr ++ p) model inputs with
       | inr data => rest = [] /\ out = Return data
       | inl err =>
           ((exists s, status_of err = Some s /\ (s = 429 \/ 500 <= s < 600)) ->
              exists (x : Q) (rest' : trace),
                rest = Sleep (Qmin x 8000) :: rest' /\
                (1000 * inject_Z (2 ^ count_calls p) <= x)%Q /\
                (x <= 1000 * inject_Z (2 ^ count_calls p) + 250)%Q /\
                (count_calls p + 1 < maxRetries ->
                   exists rest'', rest' = EmbeddingsCreate model inputs :: rest'') /\
                (maxRetries <= count_calls p + 1 ->
                   rest' = [] /\ out = Throw (ApiError err))) /\
           (~ (exists s, status_of err = Some s /\ (s = 429 \/ 500 <= s < 600)) ->
              rest = [] /\ out = Throw (ApiError err))
       end).
Proof.
  intros Hrandom Hrun. unfold createEmbeddingsWithRetry in Hrun.
  apply (retry_loop_spec E model inputs maxRetries Hrandom) in Hrun; [|lia].
  destruct Hrun as (evs & Htr & Hout & Hcount & Hsplit & Hall & Hnil & Hcons).
  exists evs. split; [exact Htr|]. split; [exact Hout|].
  split; [now rewrite Z.sub_0_r in Hcount|]. split; [exact Hall|].
  split; [|split].
  - intros Hmax. destruct evs as [|ev evs].
    + split; [reflexivity|]. now destruct (Hnil eq_refl) as [_ ->].
    + destruct Hcons as (rest & _ & Hlt); [discriminate|lia].
  - intros Hmax. destruct evs as [|ev evs].
    + destruct (Hnil eq_refl) as [Hle _]. lia.
    + destruct Hcons as (rest & Hev & _); [discriminate|]. now exists rest.
  - intros p rest Hp. specialize (Hsplit p rest Hp).
    unfold after_attempt in Hsplit. rewrite Z.add_0_l in Hsplit.
    destruct (embeddings_create E (tr ++ p) model inputs) as [err|data];
      [|exact Hsplit].
    destruct (is429 (status_of err) || is5xx (status_of err)) eqn:Hretry.
    + split.
      * intros _. destruct Hsplit as (x & rest' & Hrest & Hlo & Hhi & Hlast & Hnext).
        exists x, rest'. split; [exact Hrest|]. split; [exact Hlo|].
        split; [exact Hhi|]. split.
        -- intros Hlt. destruct rest' as [|ev rest'].
           ++ destruct (Hlast eq_refl) as [_ Heq]. lia.
           ++ destruct Hnext as (rest'' & Hev & _); [discriminate|].
              now exists rest''.
        -- intros Hge. destruct rest' as [|ev rest'].
           ++ split; [reflexivity|]. now destruct (Hlast eq_refl).
           ++ destruct Hnext as (rest'' & _ & Hlt); [discriminate|lia].
      * intros Hno. exfalso. apply Hno. now apply retryable_spec.
    + split.
      * intros Hs. apply retryable_spec in Hs. congruence.
      * intros _. exact Hsplit.
Qed.

(** The scenario of the specification: 429 on the first two attempts,
    then a result; the routine has slept twice, 1125 ms and 2125 ms. *)
Example retry_twice_then_success :
  createEmbeddingsWithRetry sample_env (str "m") [str "a"] 5 [] =
  (Return [[1 # 2]%Q],
   [EmbeddingsCreate (str "m") [str "a"]; Sleep (backoffMs 0 (1 # 2));
    EmbeddingsCreate (str "m") [str "a"]; Sleep (backoffMs 1 (1 # 2));
    EmbeddingsCreate (str "m") [str "a"]]).
Proof. reflexivity. Qed.

(** A status 400 is thrown at once: one call, no sleep. *)
Example retry_not_for_400 :
  createEmbeddingsWithRetry (failing_env (Some 400)) (str "m") [str "a"] 5 [] =
  (Throw (ApiError {| err_status := Some 400; err_response_status := None;
                      err_tag := 1 |}),
   [EmbeddingsCreate (str "m") [str "a"]]).
Proof. reflexivity. Qed.

(** A status 503 is retried until [maxRetries] calls were made. *)
Example retry_exhausted_for_503 :
  createEmbeddingsWithRetry (failing_env (Some 503)) (str "m") [str "a"] 2 [] =
  (Throw (ApiError {| err_status := Some 503; err_response_status := None;
                      err_tag := 1 |}),
   [EmbeddingsCreate (str "m") [str "a"]; Sleep (backoffMs 0 (1 # 2));
    EmbeddingsCreate (str "m") [str "a"]; Sleep (backoffMs 1 (1 # 2))]).
Proof. reflexivity. Qed.

(** The outcome of the scenario, read off the policy alone: the first two
    calls are answered with 429, so each is followed by a sleep and by the
    next call; the third call is answered, and its result is returned. *)
Lemma retry_policy_witness :
  random_in_unit sample_env /\
  fst (createEmbeddingsWithRetry sample_env (str "m") [str "a"] 5 []) =
    Return [[1 # 2]%Q] /\
  count_calls (snd (createEmbeddingsWithRetry sample_env (str "m") [str "a"] 5 [])) = 3.
Proof.
  assert (Hrandom : random_in_unit sample_env).
  { intros tr. split; simpl; [discriminate|reflexivity]. }
  split; [exact Hrandom|].
  destruct (retry_policy sample_env (str "m") [str "a"] 5 []
              (snd (createEmbeddingsWithRetry sample_env (str "m") [str "a"] 5 []))
              (fst (createEmbeddingsWithRetry sample_env (str "m") [str "a"] 5 []))
              Hrandom eq_refl)
    as (evs & Htr & _ & _ & _ & _ & Hfirst & Hsplit).
  simpl app in Htr.
  destruct Hfirst as [r0 Hevs]; [lia|].
  (* the first call: 429 *)
  destruct (Hsplit [] r0 Hevs) as [Hretry0 _].
  destruct Hretry0 as (x0 & r1 & Hr0 & _ & _ & Hnext0 & _);
    [exists 429; split; [reflexivity|left; reflexivity]|].
  destruct Hnext0 as [r2 Hr1]; [vm_compute; reflexivity|].
  rewrite Hr0, Hr1 in Hevs.
  (* the second call: 429 *)
  destruct (Hsplit [EmbeddingsCreate (str "m") [str "a"]; Sleep (Qmin x0 8000)] r2 Hevs)
    as [Hretry1 _].
  destruct Hretry1 as (x1 & r3 & Hr2 & _ & _ & Hnext1 & _);
    [exists 429; split; [reflexivity|left; reflexivity]|].
  destruct Hnext1 as [r4 Hr3]; [vm_compute; reflexivity|].
  rewrite Hr2, Hr3 in Hevs.
  (* the third call: a result *)
  destruct (Hsplit [EmbeddingsCreate (str "m") [str "a"]; Sleep (Qmin x0 8000);
                    EmbeddingsCreate (str "m") [str "a"]; Sleep (Qmin x1 8000)] r4 Hevs)
    as [Hr4 Hout].
  split; [exact Hout|].
  rewrite Htr, Hevs, Hr4. reflexivity.
Defined.

(** ** Computations *)

Lemma bind_Return_inv {A B : Type} (m : M A) (f : A -> M B) tr b tr' :
  bind m f tr = (Return b, tr') ->
  exists a tr1, m tr = (Return a, tr1) /\ f a tr1 = (Return b, tr').
Proof.
  unfold bind. destruct (m tr) as [[a|e|] tr1]; intros H; try discriminate.
  now exists a, tr1.
Qed.

(** A run of the retry routine ends, adds only calls with its inputs and
    sleeps, and a result that it returns is the answer to one of its
    calls. *)
Lemma retry_loop_basic E model inputs maxRetries fuel :
  forall attempt lastErr tr out tr',
    (Z.to_nat (maxRetries - attempt) < fuel)%nat ->
    retry_loop E fuel model inputs maxRetries attempt lastErr tr = (out, tr') ->
    exists evs,
      tr' = tr ++ evs /\
      out <> OutOfFuel /\
      Forall (fun ev => ev = EmbeddingsCreate model inputs \/ is_sleep ev = true) evs /\
      (forall data, out = Return data ->
         In (EmbeddingsCreate model inputs) evs /\
         exists history, embeddings_create E history model inputs = inr data).
Proof.
  induction fuel as [|fuel IH]; intros attempt lastErr tr out tr' Hfuel Hrun; [lia|].
  rewrite retry_loop_step in Hrun.
  destruct (Z.ltb_spec attempt maxRetries) as [Hlt|Hge].
  - destruct (embeddings_create E tr model inputs) as [err|data] eqn:Hres.
    + destruct (is429 (status_of err) || is5xx (status_of err)).
      * apply IH in Hrun; [|lia].
        destruct Hrun as (evs & -> & Hout & Hall & Hret).
        eexists (_ :: _ :: evs). split; [now rewrite <- !app_assoc|].
        split; [exact Hout|]. split.
        -- constructor; [now left|]. constructor; [now right|exact Hall].
        -- intros data Hd. destruct (Hret data Hd) as [Hin Hh].
           split; [now left|exact Hh].
      * injection Hrun as <- <-. exists [EmbeddingsCreate model inputs].
        split; [reflexivity|]. split; [discriminate|]. split.
        -- constructor; [now left|constructor].
        -- discriminate.
    + injection Hrun as <- <-. exists [EmbeddingsCreate model inputs].
      split; [reflexivity|]. split; [discriminate|]. split.
      * constructor; [now left|constructor].
      * intros d Hd. injection Hd as <-. split; [now left|now exists tr].
  - injection Hrun as <- <-. exists []. split; [now rewrite app_nil_r|].
    split; [discriminate|]. split; [constructor|discriminate].
Qed.

Lemma createEmbeddingsWithRetry_basic E model inputs maxRetries tr out tr' :
  createEmbeddingsWithRetry E model inputs maxRetries tr = (out, tr') ->
  exists evs,
    tr' = tr ++ evs /\
    out <> OutOfFuel /\
    Forall (fun ev => ev = EmbeddingsCreate model inputs \/ is_sleep ev = true) evs /\
    (forall data, out = Return data ->
       In (EmbeddingsCreate model inputs) evs /\
       exists history, embeddings_create E history model inputs = inr data).
Proof. intros Hrun. apply retry_loop_basic in Hrun; [exact Hrun|lia]. Qed.


(** ** The batcher *)

Lemma firstn_min_length {A : Type} (n : nat) (l : list A) :
  firstn (Nat.min n (List.length l)) l = firstn n l.
Proof.
  destruct (Nat.le_ge_cases n (List.length l)) as [H|H].
  - now rewrite Nat.min_l.
  - rewrite Nat.min_r by exact H. rewrite firstn_all. symmetry. now apply firstn_all2.
Qed.

(** [l.slice(a, a + n)] for a position and a size that are not negative. *)
Lemma js_slice_window {A : Type} (l : list A) (a n : Z) :
  0 <= a -> 0 <= n ->
  js_slice l a (a + n) = firstn (Z.to_nat n) (skipn (Z.to_nat a) l).
Proof.
  intros Ha Hn. unfold js_slice, rel_index.
  destruct (Z.ltb_spec a 0), (Z.ltb_spec (a + n) 0); try lia.
  destruct (Z.le_gt_cases a (js_length l)) as [Hl|Hl].
  - rewrite (Z.min_l a) by lia.
    rewrite <- (firstn_min_length (Z.to_nat n)). f_equal.
    rewrite length_skipn. unfold js_length in *. lia.
  - rewrite (Z.min_r a) by lia.
    rewrite !skipn_all2 by (unfold js_length in *; lia).
    now rewrite !firstn_nil.
Qed.

Lemma combine_indices (start : Z) (batch : list js_string) :
  combine batch (indices_of start batch) = enumerate_from start batch.
Proof.
  unfold indices_of. revert start. induction batch as [|t batch IH]; intros start.
  - reflexivity.
  - simpl. rewrite Z.add_0_r. f_equal.
    rewrite <- seq_shift, map_map. rewrite <- IH. f_equal.
    apply map_ext. intros k. lia.
Qed.

Lemma enumerate_from_app (start : Z) (l1 l2 : list js_string) :
  enumerate_from start (l1 ++ l2) =
  enumerate_from start l1 ++ enumerate_from (start + js_length l1) l2.
Proof.
  revert start. induction l1 as [|t l1 IH]; intros start; cbn [enumerate_from app].
  - unfold js_length. simpl. now rewrite Z.add_0_r.
  - rewrite IH.
    replace (start + 1 + js_length l1) with (start + js_length (t :: l1))
      by (unfold js_length; cbn [List.length]; lia).
    reflexivity.
Qed.


Lemma enumerate_from_nth (start : Z) (l : list js_string) (t : js_string) (i : Z) :
  In (t, i) (enumerate_from start l) ->
  start <= i /\ nth_error l (Z.to_nat (i - start)) = Some t.
Proof.
  revert start. induction l as [|a l IH]; intros start Hin; simpl in Hin.
  - contradiction.
  - destruct Hin as [Heq|Hin].
    + injection Heq as -> ->. rewrite Z.sub_diag. split; [lia|reflexivity].
    + apply IH in Hin. destruct Hin as [Hle Hnth]. split; [lia|].
      replace (Z.to_nat (i - start)) with (S (Z.to_nat (i - (start + 1)))) by lia.
      exact Hnth.
Qed.

(** The batch that starts at [start] and the chunks after it. *)
Lemma surviving_split (chunks : list js_string) (start size : Z) :
  0 <= start -> 0 < size ->
  filter has_text (enumerate_from start (map trim (skipn (Z.to_nat start) chunks))) =
  nonEmpty_of start (batch_of chunks start size) ++
  filter has_text
    (enumerate_from (start + size)
       (map trim (skipn (Z.to_nat (start + size)) chunks))).
Proof.
  intros Hs Hb. unfold nonEmpty_of, batch_of.
  rewrite combine_indices, js_slice_window by lia.
  rewrite <- filter_app. f_equal.
  set (rest := skipn (Z.to_nat start) chunks).
  replace (skipn (Z.to_nat (start + size)) chunks) with (skipn (Z.to_nat size) rest)
    by (unfold rest; rewrite skipn_skipn; f_equal; lia).
  rewrite <- (firstn_skipn (Z.to_nat size) rest) at 1.
  rewrite map_app, enumerate_from_app. f_equal.
  destruct (Nat.le_gt_cases (Z.to_nat size) (List.length rest)) as [Hl|Hl].
  - f_equal. unfold js_length. rewrite length_map, length_firstn. lia.
  - rewrite skipn_all2 by lia. reflexivity.
Qed.

Lemma push_vectors_zip opts nonEmpty embeddings vectors tr :
  push_vectors opts nonEmpty embeddings vectors tr =
  if (List.length embeddings <=? List.length nonEmpty)%nat
  then (Return (vectors ++ zip_vectors opts nonEmpty embeddings), tr)
  else (Throw TypeError, tr).
Proof.
  revert nonEmpty vectors.
  induction embeddings as [|values embeddings IH]; intros nonEmpty vectors.
  - unfold zip_vectors. rewrite combine_nil. simpl. unfold ret. now rewrite app_nil_r.
  - destruct nonEmpty as [|x nonEmpty]; [reflexivity|].
    simpl push_vectors. rewrite IH. cbn [List.length Nat.leb].
    destruct (List.length embeddings <=? List.length nonEmpty)%nat; [|reflexivity].
    unfold zip_vectors. simpl. now rewrite <- app_assoc.
Qed.

(** One turn of the loop over the batches. *)
Lemma embed_loop_step E fuel chunks opts start vectors tr :
  embed_loop E (S fuel) chunks opts start vectors tr =
  if start <? js_length chunks then
    let nonEmpty := nonEmpty_of start (batch_of chunks start (batchSize opts)) in
    match nonEmpty with
    | [] => embed_loop E fuel chunks opts (start + batchSize opts) vectors tr
    | _ :: _ =>
        match createEmbeddingsWithRetry E (model opts) (map fst nonEmpty)
                (maxRetries opts) tr with
        | (Return embeddings, tr1) =>
            if (List.length embeddings <=? List.length nonEmpty)%nat
            then embed_loop E fuel chunks opts (start + batchSize opts)
                   (vectors ++ zip_vectors opts nonEmpty embeddings) tr1
            else (Throw TypeError, tr1)
        | (Throw e, tr1) => (Throw e, tr1)
        | (OutOfFuel, tr1) => (OutOfFuel, tr1)
        end
    end
  else (Return vectors, tr).
Proof.
  simpl. destruct (start <? js_length chunks); [|reflexivity].
  cbv zeta.
  destruct (nonEmpty_of start (batch_of chunks start (batchSize opts))) as [|x ne] eqn:Hne.
  - reflexivity.
  - replace (js_length (x :: ne) =? 0) with false
      by (unfold js_length; simpl List.length; symmetry; apply Z.eqb_neq; lia).
    unfold bind at 1.
    destruct (createEmbeddingsWithRetry E (model opts) (map fst (x :: ne))
                (maxRetries opts) tr) as [[embeddings|e|] tr1]; try reflexivity.
    unfold bind. rewrite push_vectors_zip.
    destruct (List.length embeddings <=? List.length (x :: ne))%nat; reflexivity.
Qed.

Lemma zip_vectors_keys opts nonEmpty embeddings :
  List.length embeddings = List.length nonEmpty ->
  map record_key (zip_vectors opts nonEmpty embeddings) =
  map (key_of (idPrefix opts)) nonEmpty.
Proof.
  unfold zip_vectors. revert embeddings.
  induction nonEmpty as [|x ne IH]; intros [|v embs] Hlen; try discriminate; simpl.
  - reflexivity.
  - f_equal. apply IH. simpl in Hlen. lia.
Qed.

Lemma zip_vectors_in opts nonEmpty embeddings v :
  In v (zip_vectors opts nonEmpty embeddings) ->
  exists x, In x nonEmpty /\ record_key v = key_of (idPrefix opts) x.
Proof.
  unfold zip_vectors. intros Hin. apply in_map_iff in Hin.
  destruct Hin as ([x values] & <- & Hin). exists x. split.
  - eapply in_combine_l. exact Hin.
  - reflexivity.
Qed.

(** An entry of [nonEmpty] is the trimmed, non-empty text of the chunk at
    its index. *)
Lemma nonEmpty_of_in chunks start size x :
  0 <= start -> 0 < size ->
  In x (nonEmpty_of start (batch_of chunks start size)) ->
  exists c,
    nth_error chunks (Z.to_nat (snd x)) = Some c /\
    start <= snd x /\ fst x = trim c /\ fst x <> [].
Proof.
  intros Hs Hb Hin. unfold nonEmpty_of in Hin. apply filter_In in Hin.
  destruct Hin as [Hin Htext]. rewrite combine_indices in Hin.
  destruct x as [t i]. apply enumerate_from_nth in Hin. destruct Hin as [Hle Hnth].
  unfold batch_of in Hnth. rewrite js_slice_window in Hnth by lia.
  rewrite nth_error_map in Hnth.
  destruct (nth_error (firstn (Z.to_nat size) (skipn (Z.to_nat start) chunks))
              (Z.to_nat (i - start))) as [c|] eqn:Hc; [|discriminate].
  injection Hnth as <-. exists c. simpl. repeat split.
  - rewrite nth_error_firstn in Hc.
    destruct (Z.to_nat (i - start) <? Z.to_nat size)%nat; [|discriminate].
    rewrite nth_error_skipn in Hc. rewrite <- Hc. f_equal. lia.
  - exact Hle.
  - unfold has_text, js_length in Htext. simpl in Htext.
    intros E0. rewrite E0 in Htext. discriminate.
Qed.


Section Batcher.

Variables (E : env) (chunks : list js_string) (opts : embed_options).
Hypothesis Hsize : batchSize opts > 0.

(** With one vector per input, the records are those of the surviving
    chunks, in their order. *)
Lemma embed_loop_records fuel :
  one_vector_per_input E ->
  forall start acc tr vectors tr',
    0 <= start ->
    embed_loop E fuel chunks opts start acc tr = (Return vectors, tr') ->
    map record_key vectors =
    map record_key acc ++
    map (key_of (idPrefix opts))
      (filter has_text
         (enumerate_from start (map trim (skipn (Z.to_nat start) chunks)))).
Proof.
  intros Hone. induction fuel as [|fuel IH]; intros start acc tr vectors tr' Hs Hrun.
  - discriminate.
  - rewrite embed_loop_step in Hrun.
    destruct (Z.ltb_spec start (js_length chunks)) as [Hl|Hl].
    + rewrite (surviving_split chunks start (batchSize opts)) by lia.
      cbv zeta in Hrun.
      destruct (nonEmpty_of start (batch_of chunks start (batchSize opts)))
        as [|x ne] eqn:Hne.
      * apply IH in Hrun; [exact Hrun|lia].
      * destruct (createEmbeddingsWithRetry E (model opts) (map fst (x :: ne))
                    (maxRetries opts) tr) as [[embs|e|] tr1] eqn:Hcall;
          try discriminate.
        apply createEmbeddingsWithRetry_basic in Hcall.
        destruct Hcall as (evs & _ & _ & _ & Hret).
        destruct (Hret embs eq_refl) as [_ [history Hdata]].
        apply Hone in Hdata. rewrite length_map in Hdata.
        rewrite Hdata, Nat.leb_refl in Hrun.
        apply IH in Hrun; [|lia]. rewrite Hrun.
        rewrite map_app, zip_vectors_keys by exact Hdata.
        now rewrite map_app, app_assoc.
    + injection Hrun as <- <-.
      rewrite skipn_all2 by (unfold js_length in Hl; lia).
      simpl. now rewrite app_nil_r.
Qed.

(** Whatever the provider sends: the loop ends, calls the provider with
    the surviving texts of one batch at a time, and each record it adds
    holds the trimmed text of the chunk at its index, which was sent. *)
Lemma embed_loop_trace fuel :
  forall start acc tr out tr' k,
    0 <= k -> start = k * batchSize opts ->
    embed_loop E fuel chunks opts start acc tr = (out, tr') ->
    exists evs,
      tr' = tr ++ evs /\
      ((Z.to_nat (js_length chunks - start) < fuel)%nat -> out <> OutOfFuel) /\
      (forall ev, In ev evs ->
         is_sleep ev = true \/
         exists j, k <= j /\
           nonEmpty_of (j * batchSize opts)
             (batch_of chunks (j * batchSize opts) (batchSize opts)) <> [] /\
           ev = EmbeddingsCreate (model opts)
                  (map fst (nonEmpty_of (j * batchSize opts)
                              (batch_of chunks (j * batchSize opts) (batchSize opts))))) /\
      (forall vectors, out = Return vectors ->
         exists new,
           vectors = acc ++ new /\
           forall v, In v new ->
             exists x inputs,
               record_key v = key_of (idPrefix opts) x /\
               (exists c, nth_error chunks (Z.to_nat (snd x)) = Some c /\
                          0 <= snd x /\ fst x = trim c /\ fst x <> []) /\
               In (EmbeddingsCreate (model opts) inputs) evs /\
               In (fst x) inputs).
Proof.
  induction fuel as [|fuel IH]; intros start acc tr out tr' k Hk Hstart Hrun.
  - injection Hrun as <- <-. exists []. split; [now rewrite app_nil_r|].
    split; [lia|]. split; [intros ev []|discriminate].
  - rewrite embed_loop_step in Hrun.
    assert (Hs : 0 <= start) by nia.
    destruct (Z.ltb_spec start (js_length chunks)) as [Hl|Hl].
    + cbv zeta in Hrun.
      assert (Hnext : start + batchSize opts = (k + 1) * batchSize opts) by lia.
      destruct (nonEmpty_of start (batch_of chunks start (batchSize opts)))
        as [|x ne] eqn:Hne.
      * apply (IH _ _ _ _ _ (k + 1)) in Hrun; [|lia|exact Hnext].
        destruct Hrun as (evs & -> & Hfuel & Hevs & Hrec).
        exists evs. split; [reflexivity|]. split; [intros; apply Hfuel; lia|].
        split; [|exact Hrec].
        intros ev Hin. destruct (Hevs ev Hin) as [Hsl|(j & Hj & Hev)]; [now left|].
        right. exists j. split; [lia|exact Hev].
      * destruct (createEmbeddingsWithRetry E (model opts) (map fst (x :: ne))
                    (maxRetries opts) tr) as [r tr1] eqn:Hcall.
        apply createEmbeddingsWithRetry_basic in Hcall.
        destruct Hcall as (evs1 & -> & Hr & Hall1 & Hret).
        rewrite Forall_forall in Hall1.
        assert (Hevs1 : forall ev, In ev evs1 ->
                  is_sleep ev = true \/
                  exists j, k <= j /\
                    nonEmpty_of (j * batchSize opts)
                      (batch_of chunks (j * batchSize opts) (batchSize opts)) <> [] /\
                    ev = EmbeddingsCreate (model opts)
                           (map fst (nonEmpty_of (j * batchSize opts)
                                       (batch_of chunks (j * batchSize opts)
                                          (batchSize opts))))).
        { intros ev Hin. destruct (Hall1 ev Hin) as [->|Hsl]; [|now left].
          right. exists k. split; [lia|]. rewrite <- Hstart, Hne.
          split; [discriminate|reflexivity]. }
        destruct r as [embs|e|].
        -- destruct (List.length embs <=? List.length (x :: ne))%nat.
           ++ apply (IH _ _ _ _ _ (k + 1)) in Hrun; [|lia|exact Hnext].
              destruct Hrun as (evs & -> & Hfuel & Hevs & Hrec).
              exists (evs1 ++ evs). split; [now rewrite app_assoc|].
              split; [intros; apply Hfuel; lia|]. split.
              ** intros ev Hin. apply in_app_or in Hin. destruct Hin as [Hin|Hin].
                 --- now apply Hevs1.
                 --- destruct (Hevs ev Hin) as [Hsl|(j & Hj & Hev)]; [now left|].
                     right. exists j. split; [lia|exact Hev].
              ** intros vectors Hv. destruct (Hrec vectors Hv) as (new & -> & Hnew).
                 exists (zip_vectors opts (x :: ne) embs ++ new).
                 split; [now rewrite app_assoc|].
                 intros v Hin. apply in_app_or in Hin. destruct Hin as [Hin|Hin].
                 --- apply zip_vectors_in in Hin. destruct Hin as (y & Hy & Hkey).
                     exists y, (map fst (x :: ne)). split; [exact Hkey|]. split.
                     +++ rewrite <- Hne in Hy.
                         apply nonEmpty_of_in in Hy; [|lia|lia].
                         destruct Hy as (c & Hc & Hle & Ht & Hn).
                         exists c. repeat split; try assumption. lia.
                     +++ split.
                         *** apply in_or_app. left.
                             now destruct (Hret embs eq_refl).
                         *** now apply in_map.
                 --- destruct (Hnew v Hin) as (y & inputs & Hkey & Hc & Hsent & Hy).
                     exists y, inputs. repeat split; try assumption.
                     apply in_or_app. now right.
           ++ injection Hrun as <- <-. exists evs1. split; [reflexivity|].
              split; [discriminate|]. split; [exact Hevs1|discriminate].
        -- injection Hrun as <- <-. exists evs1. split; [reflexivity|].
           split; [discriminate|]. split; [exact Hevs1|discriminate].
        -- contradiction Hr. reflexivity.
    + injection Hrun as <- <-. exists []. split; [now rewrite app_nil_r|].
      split; [discriminate|]. split; [intros ev []|].
      intros vectors Hv. injection Hv as <-. exists [].
      split; [now rewrite app_nil_r|intros v []].
Qed.


End Batcher.

Lemma enumerate_from_lower (start : Z) (l : list js_string) :
  Forall (fun i => start <= i) (map snd (filter has_text (enumerate_from start l))).
Proof.
  rewrite Forall_forall. intros i Hin. apply in_map_iff in Hin.
  destruct Hin as ([t j] & <- & Hin). apply filter_In in Hin. destruct Hin as [Hin _].
  apply enumerate_from_nth in Hin. simpl. lia.
Qed.

Lemma enumerate_from_sorted (start : Z) (l : list js_string) :
  StronglySorted Z.lt (map snd (filter has_text (enumerate_from start l))).
Proof.
  revert start. induction l as [|t l IH]; intros start; simpl.
  - constructor.
  - destruct (has_text (t, start)); [|apply IH]. simpl. constructor; [apply IH|].
    pose proof (enumerate_from_lower (start + 1) l) as Hlow.
    rewrite Forall_forall in *. intros i Hin. specialize (Hlow i Hin). lia.
Qed.


Lemma enumerate_from_complete (start : Z) (l : list js_string) (n : nat) (t : js_string) :
  nth_error l n = Some t -> In (t, start + Z.of_nat n) (enumerate_from start l).
Proof.
  revert start n. induction l as [|a l IH]; intros start [|n] Hn; try discriminate.
  - injection Hn as ->. left. f_equal. simpl. lia.
  - right. simpl in Hn. apply (IH (start + 1)) in Hn.
    replace (start + Z.of_nat (S n)) with (start + 1 + Z.of_nat n) by lia. exact Hn.
Qed.

Lemma surviving_complete (chunks : list js_string) (n : nat) (c : js_string) :
  nth_error chunks n = Some c -> trim c <> [] ->
  In (trim c, Z.of_nat n) (surviving chunks).
Proof.
  intros Hn Ht. unfold surviving. apply filter_In. split.
  - apply (enumerate_from_complete 0). rewrite nth_error_map, Hn. reflexivity.
  - unfold has_text, js_length. simpl. destruct (trim c); [contradiction|reflexivity].
Qed.


(** The blank chunk at position 1 is dropped; the records keep the
    positions 0 and 2, and the provider was sent the trimmed texts. *)
Example batcher_sample :
  match embedAllChunks sample_env 4 sample_chunks sample_options [] with
  | (Return vectors, evs) =>
      map record_key vectors =
        [(str "uploads_x-pdf-0", 0, str "a"); (str "uploads_x-pdf-2", 2, str "b")] /\
      sent_inputs evs = [[str "a"; str "b"]; [str "a"; str "b"]; [str "a"; str "b"]]
  | _ => False
  end.
Proof. vm_compute. split; reflexivity. Qed.


(** C10. Every record that the batcher returns (positive batch size,
    whatever the provider sends) holds in [metadata.text] the trimmed text
    of the chunk at its [chunk_index], this text is not empty, and it is
    one of the inputs of a call that the batcher made to the provider. *)
Theorem records_hold_trimmed_text (E : env) (fuel : nat) (chunks : list js_string)
    (opts : embed_options) (tr tr' : trace) (vectors : list vector_record) :
  batchSize opts > 0 ->
  embedAllChunks E fuel chunks opts tr = (Return vectors, tr') ->
  exists evs,
    tr' = tr ++ evs /\
    forall v, In v vectors ->
      exists c inputs,
        0 <= md_chunk_index (vec_metadata v) /\
        nth_error chunks (Z.to_nat (md_chunk_index (vec_metadata v))) = Some c /\
        md_text (vec_metadata v) = trim c /\
        md_text (vec_metadata v) <> [] /\
        In (EmbeddingsCreate (model opts) inputs) evs /\
        In (md_text (vec_metadata v)) inputs.
Proof.
  intros Hsize Hrun. unfold embedAllChunks in Hrun.
  apply (embed_loop_trace E chunks opts Hsize fuel _ _ _ _ _ 0) in Hrun; [|lia|lia].
  destruct Hrun as (evs & -> & _ & _ & Hrec). exists evs. split; [reflexivity|].
  destruct (Hrec vectors eq_refl) as (new & Hnew & Hall). simpl in Hnew. subst new.
  intros v Hv. destruct (Hall v Hv) as ([t i] & inputs & Hkey & (c & Hc & Hi & Ht & Hne) & Hsent & Hin).
  unfold record_key, key_of in Hkey. simpl in *.
  injection Hkey as _ Hidx Htext. rewrite Hidx, Htext.
  exists c, inputs. repeat split; assumption.
Qed.

Lemma records_hold_trimmed_text_witness :
  batchSize sample_options > 0 /\
  exists evs,
    snd (embedAllChunks sample_env 4 sample_chunks sample_options []) = [] ++ evs /\
    forall v,
      In v [make_vector sample_options (str "a", 0) [1 # 2]%Q;
            make_vector sample_options (str "b", 2) [1 # 2]%Q] ->
      exists c inputs,
        0 <= md_chunk_index (vec_metadata v) /\
        nth_error sample_chunks (Z.to_nat (md_chunk_index (vec_metadata v))) = Some c /\
        md_text (vec_metadata v) = trim c /\
        md_text (vec_metadata v) <> [] /\
        In (EmbeddingsCreate (model sample_options) inputs) evs /\
        In (md_text (vec_metadata v)) inputs.
Proof.
  split; [reflexivity|].
  apply (records_hold_trimmed_text sample_env 4 sample_chunks sample_options []);
    reflexivity.
Defined.

(** The stored text is the trimmed one, not the chunk as it was cut. *)
Example stored_text_is_trimmed :
  map (fun v => md_text (vec_metadata v))
    match fst (embedAllChunks sample_env 4 sample_chunks sample_options []) with
    | Return vectors => vectors
    | _ => []
    end = [str "a"; str "b"] /\
  nth_error sample_chunks 0 = Some (str " a ").
Proof. split; reflexivity. Qed.

(** ** The ingestion handler *)

Lemma splitText_deterministic f1 f2 text W o d1 d2 :
  splitText f1 text W o = Some d1 ->
  splitText f2 text W o = Some d2 ->
  d1 = d2.
Proof.
  intros H1 H2. unfold splitText in *.
  apply (splitText_loop_mono f1 (Nat.max f1 f2)) in H1; [|lia].
  apply (splitText_loop_mono f2 (Nat.max f1 f2)) in H2; [|lia].
  congruence.
Qed.

Lemma upserted_ids_app evs1 evs2 :
  upserted_ids (evs1 ++ evs2) = upserted_ids evs1 ++ upserted_ids evs2.
Proof. apply flat_map_app. Qed.

Lemma upserted_ids_none evs :
  (forall ev, In ev evs -> is_sleep ev = true \/ is_provider_call ev = true) ->
  upserted_ids evs = [].
Proof.
  induction evs as [|ev evs IH]; intros Hall; [reflexivity|].
  simpl. rewrite IH by (intros e He; apply Hall; now right).
  destruct (Hall ev (or_introl eq_refl)) as [H|H]; destruct ev; try discriminate;
    reflexivity.
Qed.

Lemma upsert_loop_ids E index_name vectors fuel :
  forall i tr tr',
    0 <= i ->
    upsert_loop E fuel index_name vectors i tr = (Return tt, tr') ->
    exists evs,
      tr' = tr ++ evs /\
      upserted_ids evs = map vec_id (skipn (Z.to_nat i) vectors).
Proof.
  induction fuel as [|fuel IH]; intros i tr tr' Hi Hrun; [discriminate|].
  simpl in Hrun. destruct (Z.ltb_spec i (js_length vectors)) as [Hl|Hl].
  - unfold bind at 1, call at 1 in Hrun.
    destruct (index_upsert E tr index_name (js_slice vectors i (i + 100)));
      [discriminate|].
    apply IH in Hrun; [|lia]. destruct Hrun as (evs & -> & Hids).
    eexists (_ :: evs). split; [now rewrite <- app_assoc|].
    simpl. rewrite Hids, js_slice_window by lia. rewrite <- map_app. f_equal.
    replace (Z.to_nat (i + 100)) with (Z.to_nat 100 + Z.to_nat i)%nat by lia.
    rewrite <- skipn_skipn. apply firstn_skipn.
  - injection Hrun as <-. exists []. split; [now rewrite app_nil_r|].
    rewrite skipn_all2 by (unfold js_length in Hl; lia). reflexivity.
Qed.

Lemma ingest_text_ids E cfg fuel bucket key text tr tr' :
  one_vector_per_input E ->
  ingest_text E cfg fuel bucket key text tr = (Return tt, tr') ->
  exists evs, tr' = tr ++ evs /\ upserted_ids evs = ids_of key text.
Proof.
  intros Hone Hrun. unfold ingest_text in Hrun. unfold ids_of.
  destruct (js_length (trim text) =? 0).
  - injection Hrun as <-. exists []. split; [now rewrite app_nil_r|reflexivity].
  - destruct (splitText fuel text 1000 200) as [docs|] eqn:Hdocs; [|discriminate].
    destruct (splitText_returns text 1000 200 ltac:(lia)) as [docs' Hdocs'].
    rewrite (Hdocs' (S (List.length text))) by lia.
    assert (docs' = docs) as ->.
    { apply (splitText_deterministic (S (List.length text)) fuel text 1000 200);
        [apply Hdocs'; lia|exact Hdocs]. }
    apply bind_Return_inv in Hrun. destruct Hrun as (vectors & tr1 & Hembed & Hrun).
    assert (Hsize : batchSize (options_of bucket key) > 0) by reflexivity.
    assert (Hkeys : map record_key vectors =
                    map (key_of (idPrefix (options_of bucket key))) (surviving docs)).
    { pose proof Hembed as Hloop. unfold embedAllChunks in Hloop.
      pose proof (embed_loop_records E docs (options_of bucket key) Hsize fuel Hone
                    0 [] tr vectors tr1 ltac:(lia) Hloop) as Hkeys.
      simpl in Hkeys. exact Hkeys. }
    assert (Hids : map vec_id vectors =
                   map (fun x => vector_id (id_prefix_of key) (snd x)) (surviving docs)).
    { apply (f_equal (map (fun k : js_string * Z * js_string => fst (fst k)))) in Hkeys.
      rewrite !map_map in Hkeys. exact Hkeys. }
    unfold embedAllChunks in Hembed.
    apply (embed_loop_trace E docs _ Hsize fuel _ _ _ _ _ 0) in Hembed; [|lia|lia].
    destruct Hembed as (evs1 & -> & _ & Hevs1 & _).
    assert (Hnone : upserted_ids evs1 = []).
    { apply upserted_ids_none. intros ev Hin.
      destruct (Hevs1 ev Hin) as [Hs|(j & _ & _ & ->)]; [now left|now right]. }
    destruct (js_length vectors =? 0) eqn:Hempty.
    + injection Hrun as <-. exists evs1. split; [reflexivity|].
      rewrite Hnone, <- Hids.
      apply Z.eqb_eq in Hempty. unfold js_length in Hempty.
      destruct vectors; [reflexivity|simpl in Hempty; lia].
    + apply bind_Return_inv in Hrun. destruct Hrun as ([] & tr2 & Hupsert & Hrun).
      apply upsert_loop_ids in Hupsert; [|lia].
      destruct Hupsert as (evs2 & -> & Hids2).
      unfold bind, call in Hrun.
      destruct (s3_delete_object E ((tr ++ evs1) ++ evs2) bucket key); [discriminate|].
      injection Hrun as <-.
      exists (evs1 ++ evs2 ++ [S3DeleteObject bucket key]).
      split; [now rewrite <- !app_assoc|].
      rewrite !upserted_ids_app, Hnone, Hids2, <- Hids. simpl. now rewrite app_nil_r.
Qed.

Lemma process_record_ids E cfg fuel record key text tr tr' :
  one_vector_per_input E ->
  extracted E tr record key text ->
  process_record E cfg fuel record tr = (Return tt, tr') ->
  exists evs,
    tr' = tr ++ evs /\
    upserted_ids evs = if eligible key then ids_of key text else [].
Proof.
  intros Hone (Hkey & buffer & data & Hget & Hpdf & Htext) Hrun.
  unfold process_record in Hrun. rewrite Hkey in Hrun. unfold eligible.
  destruct (ends_with key (str ".pdf")); simpl in *.
  - destruct (starts_with key (str "uploads/")); simpl in *.
    + unfold bind at 1, call at 1 in Hrun. rewrite Hget in Hrun.
      unfold bind at 1, call at 1 in Hrun. rewrite Hpdf, Htext in Hrun.
      apply (ingest_text_ids E cfg fuel _ key text) in Hrun; [|exact Hone].
      destruct Hrun as (evs & -> & Hids).
      exists ([S3GetObject (bucket_name record) key] ++ [PdfParse buffer] ++ evs).
      split; [now rewrite <- !app_assoc|]. exact Hids.
    + injection Hrun as <-. exists []. split; [now rewrite app_nil_r|reflexivity].
  - injection Hrun as <-. exists []. split; [now rewrite app_nil_r|reflexivity].
Qed.

(** C5. Two runs of the ingestion of a document, at any two moments of
    the history (so for any number of repetitions), with the same decoded
    key and the same extracted text, that both end without error: the ids
    written to the index are the same, in the same order. They are
    [ids_of key text]: the id of a record is the prefix made from the key,
    a dash, and the original index of its chunk. *)
Theorem reingestion_same_ids (E : env) (cfg1 cfg2 : config) (fuel1 fuel2 : nat)
    (record1 record2 : s3_event_record) (key text : js_string)
    (tr1 tr1' tr2 tr2' : trace) :
  one_vector_per_input E ->
  extracted E tr1 record1 key text ->
  extracted E tr2 record2 key text ->
  process_record E cfg1 fuel1 record1 tr1 = (Return tt, tr1') ->
  process_record E cfg2 fuel2 record2 tr2 = (Return tt, tr2') ->
  exists evs1 evs2,
    tr1' = tr1 ++ evs1 /\ tr2' = tr2 ++ evs2 /\
    upserted_ids evs1 = upserted_ids evs2 /\
    (eligible key = true -> upserted_ids evs1 = ids_of key text).
Proof.
  intros Hone Hx1 Hx2 Hrun1 Hrun2.
  destruct (process_record_ids E cfg1 fuel1 record1 key text tr1 tr1' Hone Hx1 Hrun1)
    as (evs1 & -> & Hids1).
  destruct (process_record_ids E cfg2 fuel2 record2 key text tr2 tr2' Hone Hx2 Hrun2)
    as (evs2 & -> & Hids2).
  exists evs1, evs2. split; [reflexivity|]. split; [reflexivity|].
  split; [congruence|]. intros He. now rewrite He in Hids1.
Qed.

(** C8. A document whose extracted text is empty or white space only: the
    turn of the handler ends without error, and has called neither the
    embedding provider nor the index, and has not deleted the document. *)
Theorem blank_text_is_noop (E : env) (cfg : config) (fuel : nat)
    (record : s3_event_record) (key text : js_string) (tr : trace) :
  extracted E tr record key text ->
  forallb is_white_space text = true ->
  exists evs,
    process_record E cfg fuel record tr = (Return tt, tr ++ evs) /\
    forall ev, In ev evs -> is_ingestion_effect ev = false.
Proof.
  intros (Hkey & buffer & data & Hget & Hpdf & Htext) Hblank.
  apply trim_blank in Hblank.
  unfold process_record. rewrite Hkey.
  destruct (ends_with key (str ".pdf")); simpl.
  - destruct (starts_with key (str "uploads/")); simpl.
    + exists [S3GetObject (bucket_name record) key; PdfParse buffer]. split.
      * unfold bind at 1, call at 1. rewrite Hget.
        unfold bind at 1, call at 1. rewrite Hpdf, Htext.
        unfold ingest_text. rewrite Hblank. simpl. unfold ret.
        now rewrite <- app_assoc.
      * intros ev [<-|[<-|[]]]; reflexivity.
    + exists []. split; [unfold ret; now rewrite app_nil_r|intros ev []].
  - exists []. split; [unfold ret; now rewrite app_nil_r|intros ev []].
Qed.

(** A first ingestion (the provider is rate limited twice) and a
    second one after it write the same id. *)
Example reingestion_sample :
  upserted_ids after_first_run = [str "uploads_x-pdf-0"] /\
  upserted_ids (snd (process_record sample_env sample_config 3 sample_record
                       after_first_run))
  = [str "uploads_x-pdf-0"] ++ [str "uploads_x-pdf-0"].
Proof. split; vm_compute; reflexivity. Qed.

Lemma reingestion_same_ids_witness :
  one_vector_per_input sample_env /\
  extracted sample_env [] sample_record (str "uploads/x.pdf") (str "hello world") /\
  extracted sample_env after_first_run sample_record (str "uploads/x.pdf")
    (str "hello world") /\
  exists evs1 evs2,
    after_first_run = [] ++ evs1 /\
    snd (process_record sample_env sample_config 3 sample_record after_first_run)
      = after_first_run ++ evs2 /\
    upserted_ids evs1 = upserted_ids evs2 /\
    (eligible (str "uploads/x.pdf") = true ->
       upserted_ids evs1 = ids_of (str "uploads/x.pdf") (str "hello world")).
Proof.
  assert (Hone : one_vector_per_input sample_env).
  { intros tr m inputs data. simpl. destruct (count_calls tr <? 2); [discriminate|].
    intros H. injection H as <-. apply length_map. }
  assert (Hx1 : extracted sample_env [] sample_record (str "uploads/x.pdf")
                  (str "hello world")).
  { split; [reflexivity|]. exists [1%N], (Some (str "hello world")).
    repeat split; reflexivity. }
  assert (Hx2 : extracted sample_env after_first_run sample_record
                  (str "uploads/x.pdf") (str "hello world")).
  { split; [reflexivity|]. exists [1%N], (Some (str "hello world")).
    repeat split; reflexivity. }
  split; [exact Hone|]. split; [exact Hx1|]. split; [exact Hx2|].
  apply (reingestion_same_ids sample_env sample_config sample_config 3 3
           sample_record sample_record (str "uploads/x.pdf") (str "hello world")
           [] after_first_run after_first_run
           (snd (process_record sample_env sample_config 3 sample_record
                   after_first_run)) Hone Hx1 Hx2).
  - vm_compute. reflexivity.
  - vm_compute. reflexivity.
Defined.

Lemma blank_text_is_noop_witness :
  extracted sample_env [] scanned_record (str "uploads/scan.pdf") (str "   ") /\
  forallb is_white_space (str "   ") = true /\
  exists evs,
    process_record sample_env sample_config 0 scanned_record [] = (Return tt, [] ++ evs) /\
    forall ev, In ev evs -> is_ingestion_effect ev = false.
Proof.
  assert (Hx : extracted sample_env [] scanned_record (str "uploads/scan.pdf")
                 (str "   ")).
  { split; [reflexivity|]. exists [0%N], (Some (str "   ")).
    repeat split; reflexivity. }
  split; [exact Hx|]. split; [reflexivity|].
  apply (blank_text_is_noop sample_env sample_config 0 scanned_record
           (str "uploads/scan.pdf") (str "   ") [] Hx).
  reflexivity.
Defined.

(** The scanned document of the sample: fetched and parsed, nothing else. *)
Example scanned_document_skipped :
  process_record sample_env sample_config 3 scanned_record [] =
  (Return tt, [S3GetObject (str "bucket") (str "uploads/scan.pdf"); PdfParse [0%N]]).
Proof. reflexivity. Qed.

(** ** The query handler *)





(** An absent query field, a query of white space only, and a body that is
    not JSON are all blank. *)
Example blank_queries :
  blank_query sample_env {| httpMethod := VStr (str "POST"); body := VObj [] |} /\
  blank_query sample_env
    {| httpMethod := VUndefined;
       body := VObj [(str "query", VStr (str "  "))] |} /\
  blank_query sample_env {| httpMethod := VStr (str "POST"); body := VUndefined |}.
Proof. repeat split. Qed.

(** The test of the method comes before the test of the query. *)
Example blank_query_with_get :
  query_handler sample_env sample_config get_blank_query [] =
  (Return (response 405 (Message (str "Method Not Allowed"))), []).
Proof. reflexivity. Qed.

(** A request with a query goes to the three collaborators in turn. *)
Example query_answered :
  query_handler sample_env sample_config
    {| httpMethod := VStr (str "POST");
       body := VObj [(str "query", VStr (str " what? "))] |} [] =
  (Return (response 200 (Answer (str "ok") [])),
   [EmbeddingsCreateOne (str "text-embedding-3-small") (str "what?");
    IndexQuery (Some (str "docs")) (VNum 5) [1 # 2]%Q VUndefined;
    ChatCompletion system_prompt
      (user_question ++ str "what?" ++ user_context ++ no_context ++ user_request)]).
Proof. reflexivity. Qed.

(** * Further properties *)

(** ** The chunker: the chunks one by one *)

Lemma splitText_closed (fuel : nat) (text : js_string) (W o : Z)
    (chunks : list js_string) :
  valid_config W o -> 0 < js_length text ->
  splitText fuel text W o = Some chunks ->
  chunks = map (slice_of text)
             (map (window (js_length text) W o 0)
                (seq 0 (windows_from (js_length text) W o 0))).
Proof.
  intros Hv Hl Hrun.
  apply (splitText_deterministic fuel (S (List.length text)) text W o); [exact Hrun|].
  rewrite splitText_spans, splitSpans_closed; try assumption; [reflexivity|].
  unfold js_length. lia.
Qed.

Lemma window_inside (len W o : Z) (k : nat) :
  valid_config W o -> 0 < len ->
  (k < windows_from len W o 0)%nat ->
  Z.of_nat k * (W - o) < len /\
  ((S k < windows_from len W o 0)%nat -> Z.of_nat k * (W - o) + W < len).
Proof.
  intros [HW Ho] Hl Hk. unfold windows_from in *.
  pose proof (ceil_div_spec (len - 0 - o) (W - o) ltac:(lia)) as C.
  set (c := ceil_div (len - 0 - o) (W - o)) in *. split.
  - destruct k as [|k]; [lia|].
    assert (Z.of_nat (S k) <= c - 1) by lia. nia.
  - intros Hk'. assert (Z.of_nat k + 1 <= c - 1) by lia. nia.
Qed.

(** X1. For a valid configuration, the [k]-th chunk is
    [text.slice(k * (W - o), k * (W - o) + W)]; every chunk has at least one
    and at most [W] code units, and every chunk but the last has exactly
    [W]. *)
Theorem splitText_chunk_sizes (fuel : nat) (text : js_string) (W o : Z)
    (chunks : list js_string) :
  valid_config W o ->
  splitText fuel text W o = Some chunks ->
  forall k c, nth_error chunks k = Some c ->
    c = js_slice text (Z.of_nat k * (W - o)) (Z.of_nat k * (W - o) + W) /\
    0 < js_length c <= W /\
    ((S k < List.length chunks)%nat -> js_length c = W).
Proof.
  intros Hv Hrun k c Hk. pose proof Hv as [HW Ho].
  destruct (Z.ltb_spec 0 (js_length text)) as [Hl|Hl].
  - apply splitText_closed in Hrun; try assumption. subst chunks.
    rewrite length_map, length_map, length_seq.
    rewrite map_map in Hk. apply nth_error_map_seq_inv in Hk. destruct Hk as [Hlt ->].
    destruct (window_inside (js_length text) W o k Hv Hl Hlt) as [Hin Hfull].
    unfold slice_of, window. cbn [fst snd]. rewrite Z.add_0_l.
    set (a := Z.of_nat k * (W - o)) in *.
    assert (Ha : 0 <= a) by (unfold a; nia).
    split; [|split].
    + rewrite js_slice_window by lia.
      rewrite js_slice_inner by lia.
      rewrite <- (firstn_min_length (Z.to_nat W)). f_equal.
      rewrite length_skipn. unfold js_length in *. lia.
    + rewrite js_slice_length by lia. lia.
    + intros Hnext. rewrite js_slice_length by lia. specialize (Hfull Hnext). lia.
  - assert (text = []) as ->.
    { destruct text; [reflexivity|]. unfold js_length in Hl. simpl in Hl. lia. }
    destruct fuel; [discriminate|]. injection Hrun as <-. destruct k; discriminate.
Qed.

Lemma splitText_chunk_sizes_witness :
  valid_config 4 1 /\
  forall k c, nth_error [str "abcd"; str "defg"; str "ghij"] k = Some c ->
    c = js_slice (str "abcdefghij") (Z.of_nat k * (4 - 1)) (Z.of_nat k * (4 - 1) + 4) /\
    0 < js_length c <= 4 /\
    ((S k < List.length [str "abcd"; str "defg"; str "ghij"])%nat -> js_length c = 4).
Proof.
  split.
  - unfold valid_config. lia.
  - apply (splitText_chunk_sizes 11 (str "abcdefghij") 4 1).
    + unfold valid_config. lia.
    + reflexivity.
Defined.

(** ** The retry routine: how long it sleeps *)

Lemma count_sleeps_cons_call model inputs evs :
  count_sleeps (EmbeddingsCreate model inputs :: evs) = count_sleeps evs.
Proof. reflexivity. Qed.

Lemma count_sleeps_cons_sleep ms evs :
  count_sleeps (Sleep ms :: evs) = 1 + count_sleeps evs.
Proof.
  unfold count_sleeps, js_length. cbn [filter is_sleep List.length]. lia.
Qed.

Lemma backoffMs_range (attempt : Z) (r : Q) :
  0 <= attempt -> (0 <= r)%Q ->
  (1000 <= backoffMs attempt r)%Q /\ (backoffMs attempt r <= 8000)%Q.
Proof.
  intros Ha Hr. unfold backoffMs. split.
  - apply Q.min_glb; [|discriminate].
    assert (H1 : (1 <= inject_Z (2 ^ attempt))%Q).
    { change 1%Q with (inject_Z 1). rewrite <- Zle_Qle.
      pose proof (Z.pow_pos_nonneg 2 attempt ltac:(lia) Ha). lia. }
    set (x := inject_Z (2 ^ attempt)) in *. lra.
  - apply Q.le_min_r.
Qed.

Lemma retry_loop_sleeps E model inputs maxRetries fuel :
  random_in_unit E ->
  forall attempt lastErr tr out tr',
    0 <= attempt ->
    retry_loop E fuel model inputs maxRetries attempt lastErr tr = (out, tr') ->
    exists evs,
      tr' = tr ++ evs /\
      count_sleeps evs <= count_calls evs /\
      count_calls evs <= Z.max 0 (maxRetries - attempt) /\
      (forall ms, In (Sleep ms) evs -> (1000 <= ms)%Q /\ (ms <= 8000)%Q) /\
      (slept evs <= 8000 * inject_Z (count_sleeps evs))%Q.
Proof.
  intros Hrandom.
  induction fuel as [|fuel IH]; intros attempt lastErr tr out tr' Ha Hrun.
  - injection Hrun as <- <-. exists []. split; [now rewrite app_nil_r|].
    split; [reflexivity|]. split; [unfold count_calls, js_length; simpl; lia|].
    split; [intros ms []|discriminate].
  - rewrite retry_loop_step in Hrun.
    assert (Hnil : exists evs : trace,
              tr = tr ++ evs /\
              count_sleeps evs <= count_calls evs /\
              count_calls evs <= Z.max 0 (maxRetries - attempt) /\
              (forall ms, In (Sleep ms) evs -> (1000 <= ms)%Q /\ (ms <= 8000)%Q) /\
              (slept evs <= 8000 * inject_Z (count_sleeps evs))%Q).
    { exists []. split; [now rewrite app_nil_r|]. split; [reflexivity|].
      split; [unfold count_calls, js_length; simpl; lia|].
      split; [intros ms []|discriminate]. }
    assert (Hone : attempt < maxRetries ->
              exists evs : trace,
                tr ++ [EmbeddingsCreate model inputs] = tr ++ evs /\
                count_sleeps evs <= count_calls evs /\
                count_calls evs <= Z.max 0 (maxRetries - attempt) /\
                (forall ms, In (Sleep ms) evs -> (1000 <= ms)%Q /\ (ms <= 8000)%Q) /\
                (slept evs <= 8000 * inject_Z (count_sleeps evs))%Q).
    { intros Hlt. exists [EmbeddingsCreate model inputs]. split; [reflexivity|].
      rewrite count_calls_cons_call, count_sleeps_cons_call.
      split; [unfold count_sleeps, count_calls, js_length; simpl; lia|].
      split; [unfold count_calls, js_length; simpl; lia|].
      split; [intros ms [H|[]]; discriminate|discriminate]. }
    destruct (Z.ltb_spec attempt maxRetries) as [Hlt|Hge].
    + destruct (embeddings_create E tr model inputs) as [err|data].
      * destruct (is429 (status_of err) || is5xx (status_of err)).
        -- set (d := backoffMs attempt
                       (math_random E (tr ++ [EmbeddingsCreate model inputs]))) in *.
           apply IH in Hrun; [|lia].
           destruct Hrun as (evs & -> & Hsl & Hcalls & Hrange & Htotal).
           destruct (Hrandom (tr ++ [EmbeddingsCreate model inputs])) as [R0 _].
           destruct (backoffMs_range attempt _ Ha R0) as [Dlo Dhi]. fold d in Dlo, Dhi.
           exists (EmbeddingsCreate model inputs :: Sleep d :: evs).
           split; [now rewrite <- !app_assoc|].
           rewrite count_calls_cons_call, count_calls_cons_sleep,
             count_sleeps_cons_call, count_sleeps_cons_sleep.
           split; [lia|]. split; [lia|]. split.
           ++ intros ms [H|[H|H]]; [discriminate| |now apply Hrange].
              injection H as <-. now split.
           ++ cbn [slept]. rewrite inject_Z_plus.
              set (n := inject_Z (count_sleeps evs)) in *.
              change (inject_Z 1) with 1%Q. lra.
        -- injection Hrun as <- <-. now apply Hone.
      * injection Hrun as <- <-. now apply Hone.
    + injection Hrun as <- <-. exact Hnil.
Qed.

(** X2. With [Math.random] in [0, 1), a run of the retry routine sleeps
    at most once per call of the provider, calls it at most [maxRetries]
    times, sleeps between 1000 and 8000 ms each time, and so sleeps at most
    [8000 * maxRetries] ms in all. *)
Theorem retry_sleep_budget (E : env) (model : js_string) (inputs : list js_string)
    (maxRetries : Z) (tr tr' : trace) (out : outcome (list embedding)) :
  random_in_unit E ->
  createEmbeddingsWithRetry E model inputs maxRetries tr = (out, tr') ->
  exists evs,
    tr' = tr ++ evs /\
    count_sleeps evs <= count_calls evs <= Z.max 0 maxRetries /\
    (forall ms, In (Sleep ms) evs -> (1000 <= ms)%Q /\ (ms <= 8000)%Q) /\
    (slept evs <= 8000 * inject_Z (Z.max 0 maxRetries))%Q.
Proof.
  intros Hrandom Hrun. unfold createEmbeddingsWithRetry in Hrun.
  apply (retry_loop_sleeps E model inputs maxRetries _ Hrandom) in Hrun; [|lia].
  destruct Hrun as (evs & -> & Hsl & Hcalls & Hrange & Htotal).
  rewrite Z.sub_0_r in Hcalls.
  exists evs. split; [reflexivity|]. split; [lia|]. split; [exact Hrange|].
  assert (Hle : (inject_Z (count_sleeps evs) <= inject_Z (Z.max 0 maxRetries))%Q)
    by (rewrite <- Zle_Qle; lia).
  set (n := inject_Z (count_sleeps evs)) in *.
  set (m := inject_Z (Z.max 0 maxRetries)) in *. lra.
Qed.

Lemma retry_sleep_budget_witness :
  random_in_unit sample_env /\
  exists evs,
    snd (createEmbeddingsWithRetry sample_env (str "m") [str "a"] 5 []) = [] ++ evs /\
    count_sleeps evs <= count_calls evs <= Z.max 0 5 /\
    (forall ms, In (Sleep ms) evs -> (1000 <= ms)%Q /\ (ms <= 8000)%Q) /\
    (slept evs <= 8000 * inject_Z (Z.max 0 5))%Q.
Proof.
  split.
  - intros tr. split; simpl; [discriminate|reflexivity].
  - apply (retry_sleep_budget sample_env (str "m") [str "a"] 5 []
             (snd (createEmbeddingsWithRetry sample_env (str "m") [str "a"] 5 []))
             (fst (createEmbeddingsWithRetry sample_env (str "m") [str "a"] 5 []))).
    + intros tr. split; simpl; [discriminate|reflexivity].
    + reflexivity.
Defined.

(** X3. With [maxRetries <= 0] the routine makes no call at all and
    throws [undefined], the value of [lastErr] that was never assigned. *)
Theorem retry_without_attempts (E : env) (model : js_string)
    (inputs : list js_string) (maxRetries : Z) (tr : trace) :
  maxRetries <= 0 ->
  createEmbeddingsWithRetry E model inputs maxRetries tr = (Throw Undefined, tr).
Proof.
  intros Hm. unfold createEmbeddingsWithRetry. rewrite retry_loop_step.
  destruct (Z.ltb_spec 0 maxRetries); [lia|reflexivity].
Qed.

Lemma retry_without_attempts_witness :
  0 <= 0 /\
  createEmbeddingsWithRetry sample_env (str "m") [str "a"] 0 [] = (Throw Undefined, []).
Proof.
  split; [lia|].
  apply (retry_without_attempts sample_env (str "m") [str "a"] 0 []). lia.
Defined.

(** ** The batcher: the batch size, and the ids *)

Lemma embed_loop_stuck (E : env) (chunks : list js_string) (opts : embed_options)
    (fuel : nat) :
  batchSize opts <= 0 -> chunks <> [] ->
  forall start acc tr vectors tr',
    start <= 0 ->
    embed_loop E fuel chunks opts start acc tr <> (Return vectors, tr').
Proof.
  intros Hsize Hne.
  assert (Hlen : 0 < js_length chunks).
  { destruct chunks; [contradiction|]. unfold js_length. simpl List.length. lia. }
  induction fuel as [|fuel IH]; intros start acc tr vectors tr' Hstart.
  - discriminate.
  - rewrite embed_loop_step.
    destruct (Z.ltb_spec start (js_length chunks)); [|lia]. cbv zeta.
    destruct (nonEmpty_of start (batch_of chunks start (batchSize opts))).
    + apply IH. lia.
    + destruct (createEmbeddingsWithRetry E (model opts) _ (maxRetries opts) tr)
        as [[embeddings|e|] tr1]; try discriminate.
      destruct (List.length embeddings <=? _)%nat; [apply IH; lia|discriminate].
Qed.

(** X4. With [batchSize <= 0] and at least one chunk the batcher never
    returns records: [start] never passes the end of [chunks]. With
    [batchSize = 0] it loops without calling the provider at all. *)
Theorem batcher_needs_positive_batch_size (E : env) (chunks : list js_string)
    (opts : embed_options) :
  batchSize opts <= 0 -> chunks <> [] ->
  (forall fuel tr vectors tr',
     embedAllChunks E fuel chunks opts tr <> (Return vectors, tr')) /\
  (batchSize opts = 0 ->
   forall fuel tr, embedAllChunks E fuel chunks opts tr = (OutOfFuel, tr)).
Proof.
  intros Hsize Hne. split.
  - intros fuel tr vectors tr'. unfold embedAllChunks.
    apply embed_loop_stuck; [exact Hsize|exact Hne|lia].
  - intros Hzero fuel tr. unfold embedAllChunks.
    assert (Hlen : 0 < js_length chunks).
    { destruct chunks; [contradiction|]. unfold js_length. simpl List.length. lia. }
    generalize (@nil vector_record) as acc.
    induction fuel as [|fuel IH]; intros acc; [reflexivity|].
    rewrite embed_loop_step.
    destruct (Z.ltb_spec 0 (js_length chunks)); [|lia]. cbv zeta.
    rewrite Hzero. unfold batch_of.
    rewrite (js_slice_window chunks 0 0) by lia. simpl. apply IH.
Qed.

Lemma batcher_needs_positive_batch_size_witness :
  0 <= 0 /\ sample_chunks <> [] /\
  forall fuel tr,
    embedAllChunks sample_env fuel sample_chunks
      {| idPrefix := str "p"; filename := str "f"; sourceUrl := str "u";
         model := str "m"; batchSize := 0; maxRetries := 5 |} tr = (OutOfFuel, tr).
Proof.
  split; [lia|]. split; [discriminate|].
  apply (batcher_needs_positive_batch_size sample_env sample_chunks
           {| idPrefix := str "p"; filename := str "f"; sourceUrl := str "u";
              model := str "m"; batchSize := 0; maxRetries := 5 |});
    [simpl; lia|discriminate|reflexivity].
Defined.

Lemma str_inj (s t : string) : str s = str t -> s = t.
Proof.
  unfold str. intros H.
  rewrite <- (string_of_list_ascii_of_string s), <- (string_of_list_ascii_of_string t).
  f_equal. revert H.
  generalize (list_ascii_of_string s) (list_ascii_of_string t).
  intros l. induction l as [|a l IH]; intros [|b l'] H; try discriminate.
  - reflexivity.
  - simpl in H. injection H as Hab Hl. f_equal; [|now apply IH].
    rewrite <- (ascii_N_embedding a), <- (ascii_N_embedding b). now f_equal.
Qed.

Lemma number_to_string_nonneg (z : Z) :
  0 <= z ->
  number_to_string z = str (NilEmpty.string_of_uint (N.to_uint (Z.to_N z))).
Proof. intros Hz. destruct z; [reflexivity|reflexivity|lia]. Qed.

(** The decimal rendering tells the non-negative integers apart. *)
Lemma number_to_string_inj (i j : Z) :
  0 <= i -> 0 <= j -> number_to_string i = number_to_string j -> i = j.
Proof.
  intros Hi Hj H. rewrite !number_to_string_nonneg in H by assumption.
  apply str_inj in H.
  apply (f_equal NilEmpty.uint_of_string) in H. rewrite !NilEmpty.usu in H.
  injection H as H. apply DecimalN.Unsigned.to_uint_inj in H. lia.
Qed.

Lemma vector_id_inj (prefix : js_string) (i j : Z) :
  0 <= i -> 0 <= j -> vector_id prefix i = vector_id prefix j -> i = j.
Proof.
  unfold vector_id. intros Hi Hj H.
  apply app_inv_head in H. apply app_inv_head in H.
  now apply number_to_string_inj.
Qed.

Lemma StronglySorted_lt_NoDup (l : list Z) : StronglySorted Z.lt l -> NoDup l.
Proof.
  induction 1 as [|a l Hs IH Hall]; constructor; [|exact IH].
  intros Hin. rewrite Forall_forall in Hall. specialize (Hall a Hin). lia.
Qed.

Lemma surviving_ids_NoDup (prefix : js_string) (chunks : list js_string) :
  NoDup (map (fun x : indexed_text => vector_id prefix (snd x)) (surviving chunks)).
Proof.
  replace (map (fun x : indexed_text => vector_id prefix (snd x)) (surviving chunks))
    with (map (vector_id prefix) (map snd (surviving chunks)))
    by (now rewrite map_map).
  apply NoDup_map_NoDup_ForallPairs.
  - intros i j Hi Hj Heq.
    pose proof (enumerate_from_lower 0 (map trim chunks)) as Hlow.
    rewrite Forall_forall in Hlow.
    apply (vector_id_inj prefix); [now apply Hlow|now apply Hlow|exact Heq].
  - apply StronglySorted_lt_NoDup. apply enumerate_from_sorted.
Qed.

(** X5. With a positive batch size and one vector per input, the ids of
    the records that the batcher returns are pairwise distinct: no record
    of a document overwrites another record of this document. *)
Theorem batcher_ids_distinct (E : env) (fuel : nat) (chunks : list js_string)
    (opts : embed_options) (tr tr' : trace) (vectors : list vector_record) :
  batchSize opts > 0 ->
  one_vector_per_input E ->
  embedAllChunks E fuel chunks opts tr = (Return vectors, tr') ->
  NoDup (map vec_id vectors).
Proof.
  intros Hsize Hone Hrun. unfold embedAllChunks in Hrun.
  pose proof (embed_loop_records E chunks opts Hsize fuel Hone 0 [] tr vectors tr'
                ltac:(lia) Hrun) as Hkeys.
  simpl in Hkeys. fold (surviving chunks) in Hkeys.
  apply (f_equal (map (fun k : js_string * Z * js_string => fst (fst k)))) in Hkeys.
  rewrite !map_map in Hkeys.
  assert (Hids : map vec_id vectors =
                 map (fun x : indexed_text => vector_id (idPrefix opts) (snd x))
                   (surviving chunks)) by exact Hkeys.
  rewrite Hids. apply surviving_ids_NoDup.
Qed.

Lemma batcher_ids_distinct_witness :
  batchSize sample_options > 0 /\
  NoDup (map vec_id [make_vector sample_options (str "a", 0) [1 # 2]%Q;
                     make_vector sample_options (str "b", 2) [1 # 2]%Q]).
Proof.
  split; [reflexivity|].
  apply (batcher_ids_distinct sample_env 4 sample_chunks sample_options []
           (snd (embedAllChunks sample_env 4 sample_chunks sample_options []))).
  - reflexivity.
  - intros tr m inputs data. simpl. destruct (count_calls tr <? 2); [discriminate|].
    intros H. injection H as <-. apply length_map.
  - reflexivity.
Defined.

(** ** The id prefix *)

Lemma replace_all_app (c : code_unit) (r s t : js_string) :
  replace_all c r (s ++ t) = replace_all c r s ++ replace_all c r t.
Proof. unfold replace_all. apply flat_map_app. Qed.

Lemma id_prefix_of_app (s t : js_string) :
  id_prefix_of (s ++ t) = id_prefix_of s ++ id_prefix_of t.
Proof. unfold id_prefix_of. now rewrite !replace_all_app. Qed.

Lemma starts_with_app (p s : js_string) : starts_with (p ++ s) p = true.
Proof.
  induction p as [|c p IH]; simpl.
  - now destruct s.
  - now rewrite N.eqb_refl, IH.
Qed.

Lemma ends_with_app (s p : js_string) : ends_with (s ++ p) p = true.
Proof. unfold ends_with. rewrite rev_app_distr. apply starts_with_app. Qed.

(** X6. The id prefix does not tell all keys apart. For all [a] and [b]
    the two keys [uploads/a/b.pdf] and [uploads/a_b.pdf] differ, are both
    processed by the handler, and get the same ids for the same text: the
    records of one document replace those of the other. *)
Theorem id_prefix_collision (a b text : js_string) :
  let key1 := str "uploads/" ++ a ++ str "/" ++ b ++ str ".pdf" in
  let key2 := str "uploads/" ++ a ++ str "_" ++ b ++ str ".pdf" in
  key1 <> key2 /\
  eligible key1 = true /\ eligible key2 = true /\
  id_prefix_of key1 = id_prefix_of key2 /\
  ids_of key1 text = ids_of key2 text.
Proof.
  intros key1 key2.
  assert (Hprefix : id_prefix_of key1 = id_prefix_of key2).
  { unfold key1, key2. rewrite !id_prefix_of_app. reflexivity. }
  split; [|split; [|split; [|split]]].
  - unfold key1, key2. intros H.
    apply app_inv_head in H. apply app_inv_head in H. discriminate H.
  - unfold eligible, key1. rewrite starts_with_app, andb_true_r.
    rewrite !app_assoc. apply ends_with_app.
  - unfold eligible, key2. rewrite starts_with_app, andb_true_r.
    rewrite !app_assoc. apply ends_with_app.
  - exact Hprefix.
  - unfold ids_of. now rewrite Hprefix.
Qed.

Example id_prefix_collision_sample :
  id_prefix_of (str "uploads/2024/q1.pdf") = str "uploads_2024_q1-pdf" /\
  id_prefix_of (str "uploads/2024_q1.pdf") = str "uploads_2024_q1-pdf".
Proof. split; reflexivity. Qed.

(** ** The index writer: step 5 of the handler *)

Lemma nth_upsert_shift index_name vectors i n :
  map (nth_upsert index_name vectors i) (seq 1 n) =
  map (nth_upsert index_name vectors (i + 100)) (seq 0 n).
Proof.
  rewrite <- seq_shift, map_map. apply map_ext. intros k.
  unfold nth_upsert.
  replace (i + 100 * Z.of_nat (S k)) with (i + 100 + 100 * Z.of_nat k) by lia.
  reflexivity.
Qed.

(** The calls of the loop are the first [n] slices of 100 records; they
    all succeeded, but the last one when the loop throws. *)
Lemma upsert_loop_calls E index_name vectors fuel :
  forall i tr out tr',
    0 <= i ->
    (Z.to_nat (js_length vectors - i) < fuel)%nat ->
    upsert_loop E fuel index_name vectors i tr = (out, tr') ->
    exists n : nat,
      tr' = tr ++ map (nth_upsert index_name vectors i) (seq 0 n) /\
      (forall k, (k < n)%nat -> i + 100 * Z.of_nat k < js_length vectors) /\
      match out with
      | Return _ => js_length vectors <= i + 100 * Z.of_nat n
      | Throw e =>
          exists m err,
            n = S m /\ e = ApiError err /\
            index_upsert E (tr ++ map (nth_upsert index_name vectors i) (seq 0 m))
              index_name
              (js_slice vectors (i + 100 * Z.of_nat m) (i + 100 * Z.of_nat m + 100))
            = Some err
      | OutOfFuel => False
      end.
Proof.
  induction fuel as [|fuel IH]; intros i tr out tr' Hi Hfuel Hrun; [lia|].
  simpl in Hrun. destruct (Z.ltb_spec i (js_length vectors)) as [Hl|Hl].
  - unfold bind at 1, call at 1 in Hrun.
    destruct (index_upsert E tr index_name (js_slice vectors i (i + 100)))
      as [err|] eqn:Hanswer.
    + injection Hrun as <- <-. exists 1%nat. split; [|split].
      * simpl. unfold nth_upsert. simpl. now rewrite Z.add_0_r.
      * intros k Hk. lia.
      * exists 0%nat, err. split; [reflexivity|]. split; [reflexivity|].
        simpl. now rewrite app_nil_r, Z.add_0_r.
    + apply IH in Hrun; [|lia|lia].
      destruct Hrun as (n & -> & Hin & Hout). exists (S n).
      assert (Hfirst : nth_upsert index_name vectors i 0 =
                       IndexUpsert index_name (js_slice vectors i (i + 100))).
      { unfold nth_upsert. simpl. now rewrite Z.add_0_r. }
      split; [|split].
      * cbn [seq map]. rewrite nth_upsert_shift, Hfirst. now rewrite <- app_assoc.
      * intros [|k] Hk; [lia|]. specialize (Hin k ltac:(lia)). lia.
      * destruct out as [[]|e|]; [lia| |exact Hout].
        destruct Hout as (m & err & -> & -> & Herr).
        exists (S m), err. split; [reflexivity|]. split; [reflexivity|].
        cbn [seq map]. rewrite nth_upsert_shift, Hfirst.
        rewrite <- app_assoc in Herr. cbn [app] in Herr.
        replace (i + 100 * Z.of_nat (S m)) with (i + 100 + 100 * Z.of_nat m) by lia.
        exact Herr.
  - injection Hrun as <- <-. exists 0%nat. split; [now rewrite app_nil_r|].
    split; [intros k Hk; lia|lia].
Qed.

Lemma firstn_add_skipn {A : Type} (a b : nat) (l : list A) :
  firstn (a + b) l = firstn a l ++ firstn b (skipn a l).
Proof.
  revert l. induction a as [|a IH]; intros [|x l]; simpl;
    try reflexivity; try now rewrite firstn_nil.
  now rewrite IH.
Qed.

Lemma upserted_batches_app evs1 evs2 :
  upserted_batches (evs1 ++ evs2) = upserted_batches evs1 ++ upserted_batches evs2.
Proof. apply flat_map_app. Qed.

(** The first [n] slices, put together, are the first [100 n] records. *)
Lemma upserted_batches_slices index_name (vectors : list vector_record) (n : nat) :
  forall i, 0 <= i ->
    List.concat (upserted_batches (map (nth_upsert index_name vectors i) (seq 0 n))) =
    firstn (100 * n) (skipn (Z.to_nat i) vectors).
Proof.
  induction n as [|n IH]; intros i Hi.
  - reflexivity.
  - cbn [seq map]. rewrite nth_upsert_shift.
    change (upserted_batches (nth_upsert index_name vectors i 0 :: ?l))
      with (js_slice vectors (i + 100 * Z.of_nat 0) (i + 100 * Z.of_nat 0 + 100)
            :: upserted_batches l).
    cbn [List.concat]. rewrite IH by lia.
    replace (i + 100 * Z.of_nat 0) with i by lia.
    rewrite js_slice_window by lia.
    replace (100 * S n)%nat with (Z.to_nat 100 + 100 * n)%nat by lia.
    rewrite firstn_add_skipn, skipn_skipn. do 3 f_equal. lia.
Qed.

Lemma nth_upsert_size index_name (vectors : list vector_record) (i : Z) (k : nat) :
  0 <= i -> i + 100 * Z.of_nat k < js_length vectors ->
  exists batch,
    nth_upsert index_name vectors i k = IndexUpsert index_name batch /\
    0 < js_length batch <= 100.
Proof.
  intros Hi Hk. eexists. split; [reflexivity|].
  rewrite js_slice_window by lia. unfold js_length in *.
  rewrite length_firstn, length_skipn. lia.
Qed.

(** X7. When the upsert loop of the handler returns, it has written all
    the records, each once and in their order, in [ceil(n / 100)] calls of
    1 to 100 records. *)
Theorem upsert_writes_all (E : env) (index_name : option js_string)
    (vectors : list vector_record) (tr tr' : trace) :
  upsert_loop E (S (List.length vectors)) index_name vectors 0 tr = (Return tt, tr') ->
  exists evs,
    tr' = tr ++ evs /\
    List.concat (upserted_batches evs) = vectors /\
    js_length evs = ceil_div (js_length vectors) 100 /\
    forall ev, In ev evs ->
      exists batch, ev = IndexUpsert index_name batch /\ 0 < js_length batch <= 100.
Proof.
  intros Hrun. apply upsert_loop_calls in Hrun; [|lia|unfold js_length; lia].
  destruct Hrun as (n & -> & Hin & Hall). eexists. split; [reflexivity|].
  split; [|split].
  - rewrite upserted_batches_slices by lia. simpl skipn.
    apply firstn_all2. unfold js_length in Hall. lia.
  - unfold js_length at 1. rewrite length_map, length_seq.
    pose proof (ceil_div_spec (js_length vectors) 100 ltac:(lia)) as C.
    destruct n as [|n].
    + unfold js_length in *. lia.
    + specialize (Hin n ltac:(lia)). lia.
  - intros ev Hev. apply in_map_iff in Hev. destruct Hev as (k & <- & Hk).
    apply in_seq in Hk. apply nth_upsert_size; [lia|]. apply Hin. lia.
Qed.

Lemma upsert_writes_all_witness :
  exists evs,
    snd (upsert_loop sample_env 3 None
           [make_vector sample_options (str "a", 0) []%Q;
            make_vector sample_options (str "b", 2) []%Q] 0 []) = [] ++ evs /\
    List.concat (upserted_batches evs) =
      [make_vector sample_options (str "a", 0) []%Q;
       make_vector sample_options (str "b", 2) []%Q].
Proof.
  destruct (upsert_writes_all sample_env None
              [make_vector sample_options (str "a", 0) []%Q;
               make_vector sample_options (str "b", 2) []%Q] []
              (snd (upsert_loop sample_env 3 None
                      [make_vector sample_options (str "a", 0) []%Q;
                       make_vector sample_options (str "b", 2) []%Q] 0 [])))
    as (evs & H1 & H2 & _).
  - reflexivity.
  - exists evs. split; assumption.
Defined.

(** X8. The upsert loop always ends. When it throws, the error is the one
    that the index answered to the last call; this call was for the slice
    of records after the [100 m] records that the [m] calls before it had
    written, and no call follows it. *)
Theorem upsert_fails_fast (E : env) (index_name : option js_string)
    (vectors : list vector_record) (tr tr' : trace) (out : outcome unit) :
  upsert_loop E (S (List.length vectors)) index_name vectors 0 tr = (out, tr') ->
  out <> OutOfFuel /\
  forall e, out = Throw e ->
    exists (m : nat) (written : trace) (err : api_error),
      e = ApiError err /\
      tr' = tr ++ written ++ [nth_upsert index_name vectors 0 m] /\
      List.length written = m /\
      List.concat (upserted_batches written) = firstn (100 * m) vectors /\
      Z.of_nat (100 * m) < js_length vectors /\
      index_upsert E (tr ++ written) index_name
        (js_slice vectors (100 * Z.of_nat m) (100 * Z.of_nat m + 100)) = Some err.
Proof.
  intros Hrun. apply upsert_loop_calls in Hrun; [|lia|unfold js_length; lia].
  destruct Hrun as (n & -> & Hin & Hout). split.
  - intros ->. exact Hout.
  - intros e ->. destruct Hout as (m & err & -> & -> & Herr).
    exists m, (map (nth_upsert index_name vectors 0) (seq 0 m)), err.
    split; [reflexivity|]. split; [|split; [|split; [|split]]].
    + rewrite seq_S, map_app. reflexivity.
    + now rewrite length_map, length_seq.
    + now rewrite upserted_batches_slices by lia.
    + specialize (Hin m ltac:(lia)). lia.
    + exact Herr.
Qed.

(** The scenario of the specification: the second of three batches
    fails; the first batch stays written and the third is not sent. *)
Example upsert_second_batch_fails :
  match upsert_loop broken_index_env 251 None many_vectors 0 [] with
  | (Throw e, evs) =>
      e = ApiError index_down /\
      upserted_batches evs = [firstn 100 many_vectors; firstn 100 (skipn 100 many_vectors)]
  | _ => False
  end.
Proof. vm_compute. split; reflexivity. Qed.

Lemma upsert_fails_fast_witness :
  fst (upsert_loop broken_index_env 251 None many_vectors 0 []) <> OutOfFuel.
Proof.
  apply (upsert_fails_fast broken_index_env None many_vectors []
           (snd (upsert_loop broken_index_env 251 None many_vectors 0 []))
           (fst (upsert_loop broken_index_env 251 None many_vectors 0 []))).
  apply surjective_pairing.
Defined.

(** ** The ingestion of one text: the order of the effects *)

Lemma embedAllChunks_events E fuel chunks opts tr out tr' :
  batchSize opts > 0 ->
  embedAllChunks E fuel chunks opts tr = (out, tr') ->
  exists evs,
    tr' = tr ++ evs /\
    forall ev, In ev evs -> is_sleep ev = true \/ is_provider_call ev = true.
Proof.
  intros Hsize Hrun. unfold embedAllChunks in Hrun.
  apply (embed_loop_trace E chunks opts Hsize fuel _ _ _ _ _ 0) in Hrun; [|lia|lia].
  destruct Hrun as (evs & -> & _ & Hevs & _). exists evs. split; [reflexivity|].
  intros ev Hin. destruct (Hevs ev Hin) as [Hs|(j & _ & _ & ->)]; [now left|now right].
Qed.

(** X9. The effects of the ingestion of a text come in three phases:
    calls of the embedding provider (and sleeps), then upserts, then at
    most the deletion of the source. An upsert happens only after the
    batcher has returned a non-empty list of records for all the chunks,
    and the deletion only after all these records were written. *)
Theorem ingest_phases (E : env) (cfg : config) (fuel : nat)
    (bucket key text : js_string) (tr tr' : trace) (out : outcome unit) :
  ingest_text E cfg fuel bucket key text tr = (out, tr') ->
  exists e1 e2 e3,
    tr' = tr ++ e1 ++ e2 ++ e3 /\
    (forall ev, In ev e1 -> is_sleep ev = true \/ is_provider_call ev = true) /\
    (forall ev, In ev e2 -> is_upsert ev = true) /\
    (e3 = [] \/ e3 = [S3DeleteObject bucket key]) /\
    (e2 <> [] \/ e3 <> [] ->
     exists docs vectors,
       splitText fuel text 1000 200 = Some docs /\
       embedAllChunks E fuel docs (options_of bucket key) tr = (Return vectors, tr ++ e1) /\
       vectors <> [] /\
       (e3 <> [] -> List.concat (upserted_batches e2) = vectors)).
Proof.
  intros Hrun. unfold ingest_text in Hrun.
  assert (Hnothing : forall o, (o, tr) = (out, tr') ->
            exists e1 e2 e3 : trace,
              tr' = tr ++ e1 ++ e2 ++ e3 /\
              (forall ev, In ev e1 -> is_sleep ev = true \/ is_provider_call ev = true) /\
              (forall ev, In ev e2 -> is_upsert ev = true) /\
              (e3 = [] \/ e3 = [S3DeleteObject bucket key]) /\
              (e2 <> [] \/ e3 <> [] ->
               exists docs vectors,
                 splitText fuel text 1000 200 = Some docs /\
                 embedAllChunks E fuel docs (options_of bucket key) tr =
                   (Return vectors, tr ++ e1) /\
                 vectors <> [] /\
                 (e3 <> [] -> List.concat (upserted_batches e2) = vectors))).
  { intros o Ho. injection Ho as _ <-. exists [], [], [].
    split; [now rewrite app_nil_r|]. split; [intros ev []|]. split; [intros ev []|].
    split; [now left|]. intros [H|H]; now contradiction H. }
  destruct (js_length (trim text) =? 0); [exact (Hnothing _ Hrun)|].
  destruct (splitText fuel text 1000 200) as [docs|] eqn:Hdocs;
    [|exact (Hnothing _ Hrun)].
  clear Hnothing. unfold bind at 1 in Hrun.
  destruct (embedAllChunks E fuel docs (options_of bucket key) tr)
    as [r tr1] eqn:Hembed.
  assert (Hsize : batchSize (options_of bucket key) > 0) by reflexivity.
  destruct (embedAllChunks_events E fuel docs _ tr r tr1 Hsize Hembed)
    as (e1 & -> & He1).
  assert (Hstop : forall o, (o, tr ++ e1) = (out, tr') ->
            exists e1' e2 e3 : trace,
              tr' = tr ++ e1' ++ e2 ++ e3 /\
              (forall ev, In ev e1' -> is_sleep ev = true \/ is_provider_call ev = true) /\
              (forall ev, In ev e2 -> is_upsert ev = true) /\
              (e3 = [] \/ e3 = [S3DeleteObject bucket key]) /\
              (e2 <> [] \/ e3 <> [] ->
               exists docs' vectors,
                 Some docs = Some docs' /\
                 embedAllChunks E fuel docs' (options_of bucket key) tr =
                   (Return vectors, tr ++ e1') /\
                 vectors <> [] /\
                 (e3 <> [] -> List.concat (upserted_batches e2) = vectors))).
  { intros o Ho. injection Ho as _ <-. exists e1, [], [].
    split; [now rewrite !app_nil_r|]. split; [exact He1|]. split; [intros ev []|].
    split; [now left|]. intros [H|H]; now contradiction H. }
  destruct r as [vectors|e|]; [|exact (Hstop _ Hrun)|exact (Hstop _ Hrun)].
  destruct (Z.eqb_spec (js_length vectors) 0) as [Hz|Hz];
    [exact (Hstop _ Hrun)|].
  clear Hstop.
  assert (Hne : vectors <> []).
  { intros ->. apply Hz. reflexivity. }
  unfold bind at 1 in Hrun.
  destruct (upsert_loop E (S (List.length vectors)) (PINECONE_INDEX_NAME cfg) vectors 0
              (tr ++ e1)) as [r2 tr2] eqn:Hupsert.
  apply upsert_loop_calls in Hupsert; [|lia|unfold js_length; lia].
  destruct Hupsert as (n & -> & Hin & Hout).
  set (e2 := map (nth_upsert (PINECONE_INDEX_NAME cfg) vectors 0) (seq 0 n)) in *.
  assert (He2 : forall ev, In ev e2 -> is_upsert ev = true).
  { intros ev Hev. apply in_map_iff in Hev. now destruct Hev as (k & <- & _). }
  destruct r2 as [[]|e|]; [| |contradiction].
  - assert (Hall : List.concat (upserted_batches e2) = vectors).
    { unfold e2. rewrite upserted_batches_slices by lia. simpl skipn.
      apply firstn_all2. unfold js_length in Hout. lia. }
    assert (Hshape : forall o,
              (o, ((tr ++ e1) ++ e2) ++ [S3DeleteObject bucket key]) = (out, tr') ->
              exists e1' e2' e3 : trace,
                tr' = tr ++ e1' ++ e2' ++ e3 /\
                (forall ev, In ev e1' -> is_sleep ev = true \/ is_provider_call ev = true) /\
                (forall ev, In ev e2' -> is_upsert ev = true) /\
                (e3 = [] \/ e3 = [S3DeleteObject bucket key]) /\
                (e2' <> [] \/ e3 <> [] ->
                 exists docs' vectors',
                   Some docs = Some docs' /\
                   embedAllChunks E fuel docs' (options_of bucket key) tr =
                     (Return vectors', tr ++ e1') /\
                   vectors' <> [] /\
                   (e3 <> [] -> List.concat (upserted_batches e2') = vectors'))).
    { intros o Ho. injection Ho as _ <-.
      exists e1, e2, [S3DeleteObject bucket key].
      split; [now rewrite <- !app_assoc|]. split; [exact He1|]. split; [exact He2|].
      split; [now right|]. intros _. exists docs, vectors.
      split; [reflexivity|]. split; [exact Hembed|]. split; [exact Hne|].
      intros _. exact Hall. }
    unfold bind, call in Hrun.
    destruct (s3_delete_object E ((tr ++ e1) ++ e2) bucket key) as [err|].
    + exact (Hshape _ Hrun).
    + exact (Hshape _ Hrun).
  - injection Hrun as _ <-. exists e1, e2, [].
    split; [now rewrite app_nil_r, <- app_assoc|]. split; [exact He1|].
    split; [exact He2|]. split; [now left|].
    intros _. exists docs, vectors. split; [reflexivity|]. split; [exact Hembed|].
    split; [exact Hne|]. intros H. now contradiction H.
Qed.

Lemma ingest_phases_witness :
  exists e1 e2 e3,
    snd (ingest_text sample_env sample_config 3 (str "bucket") (str "uploads/x.pdf")
           (str "hello world") []) = [] ++ e1 ++ e2 ++ e3 /\
    (forall ev, In ev e1 -> is_sleep ev = true \/ is_provider_call ev = true) /\
    (forall ev, In ev e2 -> is_upsert ev = true) /\
    (e3 = [] \/ e3 = [S3DeleteObject (str "bucket") (str "uploads/x.pdf")]).
Proof.
  destruct (ingest_phases sample_env sample_config 3 (str "bucket")
              (str "uploads/x.pdf") (str "hello world") []
              (snd (ingest_text sample_env sample_config 3 (str "bucket")
                      (str "uploads/x.pdf") (str "hello world") []))
              (fst (ingest_text sample_env sample_config 3 (str "bucket")
                      (str "uploads/x.pdf") (str "hello world") [])))
    as (e1 & e2 & e3 & H1 & H2 & H3 & H4 & _).
  - apply surjective_pairing.
  - exists e1, e2, e3. repeat split; assumption.
Defined.

(** ** A text that is not blank gives a record *)

Lemma forallb_skipn {A : Type} (f : A -> bool) (n : nat) (l : list A) :
  forallb f l = true -> forallb f (skipn n l) = true.
Proof.
  intros H. rewrite <- (firstn_skipn n l), forallb_app in H.
  now apply andb_true_iff in H.
Qed.

Lemma coverage_blank (o : Z) (chunks : list js_string) :
  (forall c, In c chunks -> forallb is_white_space c = true) ->
  forallb is_white_space (coverage o chunks) = true.
Proof.
  destruct chunks as [|c rest]; intros Hall; [reflexivity|].
  simpl. rewrite forallb_app. apply andb_true_iff. split.
  - apply Hall. now left.
  - assert (Hrest : forall x, In x rest -> forallb is_white_space x = true)
      by (intros x Hx; apply Hall; now right).
    clear Hall. induction rest as [|x rest IH]; [reflexivity|].
    simpl. rewrite forallb_app. apply andb_true_iff. split.
    + apply forallb_skipn. apply Hrest. now left.
    + apply IH. intros y Hy. apply Hrest. now right.
Qed.

(** The chunks of a text that is not blank are not all blank. *)
Lemma nonblank_text_survives (fuel : nat) (text : js_string) (docs : list js_string) :
  splitText fuel text 1000 200 = Some docs ->
  forallb is_white_space text = false ->
  surviving docs <> [].
Proof.
  intros Hdocs Htext Hnone.
  assert (Hv : valid_config 1000 200) by (unfold valid_config; lia).
  rewrite splitText_spans in Hdocs.
  destruct (splitSpans fuel (js_length text) 1000 200) as [spans|] eqn:Hspans;
    [|discriminate].
  injection Hdocs as <-.
  pose proof (splitSpans_coverage text 1000 200 Hv fuel spans Hspans) as Hcov.
  rewrite <- Hcov, coverage_blank in Htext; [discriminate|].
  intros c Hc. apply trim_blank.
  destruct (trim c) as [|x t] eqn:Htrim; [reflexivity|].
  apply In_nth_error in Hc. destruct Hc as [n Hn].
  apply surviving_complete in Hn; [|rewrite Htrim; discriminate].
  rewrite Hnone in Hn. contradiction.
Qed.

Lemma upserted_ids_batches (evs : trace) :
  upserted_ids evs = map vec_id (List.concat (upserted_batches evs)).
Proof.
  induction evs as [|ev evs IH]; [reflexivity|].
  destruct ev; simpl; try exact IH. now rewrite map_app, IH.
Qed.

(** X10. With one vector per input, an ingestion of a text that is not
    blank and that ends without error has written at least one record and
    then deleted the source document: the branch for zero records is not
    taken. *)
Theorem nonblank_ingestion_writes (E : env) (cfg : config) (fuel : nat)
    (bucket key text : js_string) (tr tr' : trace) :
  one_vector_per_input E ->
  forallb is_white_space text = false ->
  ingest_text E cfg fuel bucket key text tr = (Return tt, tr') ->
  exists evs,
    tr' = tr ++ evs ++ [S3DeleteObject bucket key] /\
    upserted_ids evs <> [] /\
    (forall ev, In ev evs -> is_delete ev = false).
Proof.
  intros Hone Htext Hrun. unfold ingest_text in Hrun.
  destruct (Z.eqb_spec (js_length (trim text)) 0) as [Hblank|_].
  { assert (Ht : trim text = []).
    { unfold js_length in Hblank. destruct (trim text); [reflexivity|].
      simpl List.length in Hblank. lia. }
    apply trim_blank in Ht. congruence. }
  destruct (splitText fuel text 1000 200) as [docs|] eqn:Hdocs; [|discriminate].
  apply bind_Return_inv in Hrun. destruct Hrun as (vectors & tr1 & Hembed & Hrun).
  assert (Hsize : batchSize (options_of bucket key) > 0) by reflexivity.
  destruct (embedAllChunks_events E fuel docs _ tr _ tr1 Hsize Hembed)
    as (e1 & -> & He1).
  unfold embedAllChunks in Hembed.
  pose proof (embed_loop_records E docs (options_of bucket key) Hsize fuel Hone 0 []
                tr vectors _ ltac:(lia) Hembed) as Hkeys.
  simpl in Hkeys. fold (surviving docs) in Hkeys.
  pose proof (nonblank_text_survives fuel text docs Hdocs Htext) as Hsurv.
  assert (Hne : vectors <> []).
  { intros ->. simpl in Hkeys. destruct (surviving docs); [contradiction|discriminate]. }
  destruct (Z.eqb_spec (js_length vectors) 0) as [Hz|Hz].
  { unfold js_length in Hz. destruct vectors; [contradiction|simpl List.length in Hz; lia]. }
  apply bind_Return_inv in Hrun. destruct Hrun as ([] & tr2 & Hupsert & Hrun).
  apply upsert_loop_calls in Hupsert; [|lia|unfold js_length; lia].
  destruct Hupsert as (n & -> & Hin & Hout).
  set (e2 := map (nth_upsert (PINECONE_INDEX_NAME cfg) vectors 0) (seq 0 n)) in *.
  unfold bind, call in Hrun.
  destruct (s3_delete_object E ((tr ++ e1) ++ e2) bucket key); [discriminate|].
  injection Hrun as <-. exists (e1 ++ e2).
  split; [now rewrite <- !app_assoc|]. split.
  - rewrite upserted_ids_app, (upserted_ids_batches e2).
    unfold e2. rewrite upserted_batches_slices by lia. simpl skipn.
    rewrite firstn_all2 by (unfold js_length in Hout; lia).
    intros Hnil. apply app_eq_nil in Hnil. destruct Hnil as [_ Hnil].
    destruct vectors; [contradiction|discriminate].
  - intros ev Hev. apply in_app_or in Hev. destruct Hev as [Hev|Hev].
    + destruct (He1 ev Hev); destruct ev; try discriminate; reflexivity.
    + apply in_map_iff in Hev. now destruct Hev as (k & <- & _).
Qed.

Lemma nonblank_ingestion_writes_witness :
  one_vector_per_input sample_env /\
  forallb is_white_space (str "hello world") = false /\
  exists evs,
    snd (ingest_text sample_env sample_config 3 (str "bucket") (str "uploads/x.pdf")
           (str "hello world") []) =
      [] ++ evs ++ [S3DeleteObject (str "bucket") (str "uploads/x.pdf")] /\
    upserted_ids evs <> [] /\
    (forall ev, In ev evs -> is_delete ev = false).
Proof.
  assert (Hone : one_vector_per_input sample_env).
  { intros tr m inputs data. simpl. destruct (count_calls tr <? 2); [discriminate|].
    intros H. injection H as <-. apply length_map. }
  split; [exact Hone|]. split; [reflexivity|].
  apply (nonblank_ingestion_writes sample_env sample_config 3 (str "bucket")
           (str "uploads/x.pdf") (str "hello world") []); [exact Hone|reflexivity|].
  reflexivity.
Defined.

(** ** The loop over the records of an event *)

Lemma process_records_app E cfg fuel (before after : list s3_event_record) tr :
  process_records E cfg fuel (before ++ after) tr =
  match process_records E cfg fuel before tr with
  | (Return _, tr1) => process_records E cfg fuel after tr1
  | (Throw e, tr1) => (Throw e, tr1)
  | (OutOfFuel, tr1) => (OutOfFuel, tr1)
  end.
Proof.
  revert tr. induction before as [|r before IH]; intros tr; [reflexivity|].
  simpl. unfold bind.
  destruct (process_record E cfg fuel r tr) as [[[]|e|] tr1]; try reflexivity.
  apply IH.
Qed.

(** X11. The handler stops at the first record that fails: it throws the
    error of this record, and the records after it leave no trace. *)
Theorem handler_fails_fast (E : env) (cfg : config) (fuel : nat)
    (before after : list s3_event_record) (record : s3_event_record)
    (tr tr1 tr2 : trace) (e : js_exn) :
  process_records E cfg fuel before tr = (Return tt, tr1) ->
  process_record E cfg fuel record tr1 = (Throw e, tr2) ->
  pdf_processor_handler E cfg fuel (before ++ record :: after) tr = (Throw e, tr2).
Proof.
  intros Hbefore Hrecord. unfold pdf_processor_handler, bind.
  rewrite process_records_app, Hbefore. simpl. unfold bind. now rewrite Hrecord.
Qed.

Lemma handler_fails_fast_witness :
  process_records broken_index_env sample_config 3 [sample_record] [] =
    (Return tt, after_first_run) /\
  pdf_processor_handler broken_index_env sample_config 3
    ([sample_record] ++ sample_record :: [scanned_record]) [] =
    (Throw (ApiError index_down),
     snd (process_record broken_index_env sample_config 3 sample_record after_first_run)).
Proof.
  assert (H1 : process_records broken_index_env sample_config 3 [sample_record] [] =
               (Return tt, after_first_run)) by (vm_compute; reflexivity).
  split; [exact H1|].
  apply (handler_fails_fast broken_index_env sample_config 3 [sample_record]
           [scanned_record] sample_record [] after_first_run _ _ H1).
  vm_compute. reflexivity.
Defined.

(** X12. Records whose decoded key does not end in [.pdf] or does not
    start with [uploads/] are skipped without any call: an event with only
    such records is answered with status 200 and leaves the trace as it
    was. *)
Theorem handler_skips_other_keys (E : env) (cfg : config) (fuel : nat)
    (records : list s3_event_record) (tr : trace) :
  (forall r, In r records ->
     exists key,
       decodeURIComponent E (replace_all 43%N (str " ") (object_key r)) = Some key /\
       eligible key = false) ->
  pdf_processor_handler E cfg fuel records tr = (Return 200, tr).
Proof.
  intros Hall. unfold pdf_processor_handler, bind.
  assert (Hrun : process_records E cfg fuel records tr = (Return tt, tr)).
  { induction records as [|r records IH]; [reflexivity|].
    simpl. unfold bind.
    destruct (Hall r (or_introl eq_refl)) as (key & Hkey & Hel).
    unfold process_record. rewrite Hkey. unfold eligible in Hel.
    destruct (ends_with key (str ".pdf")); simpl in *.
    - rewrite Hel. simpl. apply IH. intros r' Hr'. apply Hall. now right.
    - apply IH. intros r' Hr'. apply Hall. now right. }
  now rewrite Hrun.
Qed.

Lemma handler_skips_other_keys_witness :
  pdf_processor_handler sample_env sample_config 0 [text_record; text_record] [] =
  (Return 200, []).
Proof.
  apply (handler_skips_other_keys sample_env sample_config 0 [text_record; text_record] []).
  intros r [<-|[<-|[]]]; exists (str "uploads/notes.txt"); split; reflexivity.
Defined.

(** ** The query handler: the answered request *)

Lemma render_matches_join (E : env) (i : nat) (matches : list index_match) :
  matches <> [] ->
  (js_length (join [10; 10]%N (render_matches E i matches)) =? 0) = false.
Proof.
  destruct matches as [|m rest]; [contradiction|]. intros _.
  apply Z.eqb_neq. unfold js_length. simpl render_matches.
  assert (Hhead : exists t, render_match E i m = 91%N :: t) by (eexists; reflexivity).
  destruct Hhead as [t ->].
  destruct (render_matches E (S i) rest); simpl List.length; lia.
Qed.

(** The steps of [answer_query], one collaborator after the other. *)
Lemma answer_query_steps E cfg query topK namespace tr :
  answer_query E cfg query topK namespace tr =
  let c1 := EmbeddingsCreateOne (str "text-embedding-3-small") query in
  match embeddings_create_one E tr (str "text-embedding-3-small") query with
  | inl err => (Throw (ApiError err), tr ++ [c1])
  | inr [] => (Throw TypeError, tr ++ [c1])
  | inr (vector :: _) =>
      let c2 := IndexQuery (PINECONE_INDEX_NAME cfg) topK vector namespace in
      match index_query E (tr ++ [c1]) (PINECONE_INDEX_NAME cfg) topK vector namespace with
      | inl err => (Throw (ApiError err), (tr ++ [c1]) ++ [c2])
      | inr search =>
          let matches := filter has_metadata_text
                           (match search with Some ms => ms | None => [] end) in
          let user := user_question ++ query ++ user_context ++
                      context_of E matches ++ user_request in
          let c3 := ChatCompletion system_prompt user in
          match chat_completion E ((tr ++ [c1]) ++ [c2]) system_prompt user with
          | inl err => (Throw (ApiError err), ((tr ++ [c1]) ++ [c2]) ++ [c3])
          | inr content =>
              (Return (response 200
                         (Answer (match content with Some c => trim c | None => [] end)
                            (map summary_of matches))),
               ((tr ++ [c1]) ++ [c2]) ++ [c3])
          end
      end
  end.
Proof.
  unfold answer_query. cbv zeta. unfold bind at 1, call at 1.
  destruct (embeddings_create_one E tr (str "text-embedding-3-small") query)
    as [err|[|vector data]]; try reflexivity.
  unfold lift_api at 1, bind at 1, ret at 1. unfold bind at 1, ret at 1.
  unfold bind at 1, call at 1.
  destruct (index_query E (tr ++ [EmbeddingsCreateOne (str "text-embedding-3-small") query])
              (PINECONE_INDEX_NAME cfg) topK vector namespace) as [err|search];
    try reflexivity.
  unfold lift_api at 1, bind at 1, ret at 1.
  set (matches := filter has_metadata_text
                    (match search with Some ms => ms | None => [] end)).
  assert (Hctx : @eq (list code_unit)
                   (if js_length (join [10; 10]%N (render_matches E 0 matches)) =? 0
                    then no_context
                    else join [10; 10]%N (render_matches E 0 matches))
                   (context_of E matches)).
  { destruct matches as [|m rest] eqn:Hm; [reflexivity|].
    rewrite render_matches_join by discriminate. reflexivity. }
  rewrite Hctx. unfold bind at 1, call at 1.
  destruct (chat_completion E _ system_prompt _) as [err|content]; reflexivity.
Qed.

Lemma query_try_accepts E cfg event tr :
  configured cfg = true -> method_allowed event = true ->
  query_try E cfg event tr =
  match query_of (parseBody E (body event)) with
  | inl e => (Throw e, tr)
  | inr query =>
      match get_property (parseBody E (body event)) (str "topK"),
            get_property (parseBody E (body event)) (str "namespace") with
      | inr topK_field, inr namespace_field =>
          if js_length query =? 0
          then (Return (response 400 (Message (str "Missing query"))), tr)
          else answer_query E cfg query (js_Number E (or_else topK_field (VNum 5)))
                 (or_else namespace_field VUndefined) tr
      | inl e, _ => (Throw e, tr)
      | _, inl e => (Throw e, tr)
      end
  end.
Proof.
  unfold configured, method_allowed, query_try. intros Hcfg Hmethod.
  apply andb_true_iff in Hcfg. destruct Hcfg as [Hcfg H3].
  apply andb_true_iff in Hcfg. destruct Hcfg as [H1 H2].
  rewrite H1, H2, H3. apply negb_true_iff in Hmethod. rewrite Hmethod. simpl.
  unfold bind, lift.
  destruct (query_of (parseBody E (body event))) as [e|query]; [reflexivity|].
  unfold ret at 1.
  destruct (get_property (parseBody E (body event)) (str "topK")) as [e|topK];
    [reflexivity|].
  unfold ret at 1.
  destruct (get_property (parseBody E (body event)) (str "namespace")) as [e|ns];
    [reflexivity|].
  unfold ret at 1. destruct (js_length query =? 0); reflexivity.
Qed.

Lemma query_of_property b query k :
  query_of b = inr query -> exists v, get_property b k = inr v.
Proof.
  unfold query_of. intros H. destruct b; simpl in *; try discriminate; eauto.
Qed.

(** X13. The query handler catches everything: whatever the request and
    whatever the collaborators do, it returns a reply, with status 200, 400,
    405 or 500, after at most three calls; a reply with status 400 or 405
    comes without any call. *)
Theorem query_handler_always_replies (E : env) (cfg : config) (event : query_event)
    (tr : trace) :
  exists r evs,
    query_handler E cfg event tr = (Return r, tr ++ evs) /\
    In (statusCode r) [200; 400; 405; 500] /\
    (List.length evs <= 3)%nat /\
    (statusCode r = 400 \/ statusCode r = 405 -> evs = []).
Proof.
  assert (Hnone : forall r,
            In (statusCode r) [200; 400; 405; 500] ->
            exists r' evs,
              (Return r, tr) = (Return r', tr ++ evs) /\
              In (statusCode r') [200; 400; 405; 500] /\
              (List.length evs <= 3)%nat /\
              (statusCode r' = 400 \/ statusCode r' = 405 -> evs = [])).
  { intros r Hr. exists r, []. split; [now rewrite app_nil_r|]. split; [exact Hr|].
    split; [simpl; lia|reflexivity]. }
  assert (Hsome : forall r evs,
            statusCode r = 200 \/ statusCode r = 500 -> (List.length evs <= 3)%nat ->
            exists r' evs',
              (Return r, tr ++ evs) = (Return r', tr ++ evs') /\
              In (statusCode r') [200; 400; 405; 500] /\
              (List.length evs' <= 3)%nat /\
              (statusCode r' = 400 \/ statusCode r' = 405 -> evs' = [])).
  { intros r evs Hr Hlen. exists r, evs. split; [reflexivity|]. split.
    - simpl. destruct Hr as [-> | ->]; auto.
    - split; [exact Hlen|]. intros [H|H]; destruct Hr as [Hr|Hr]; congruence. }
  unfold query_handler.
  destruct (configured cfg) eqn:Hcfg.
  - destruct (method_allowed event) eqn:Hmethod.
    + rewrite query_try_accepts by assumption.
      destruct (query_of (parseBody E (body event))) as [e|query] eqn:Hq.
      * apply Hnone. simpl. auto.
      * destruct (query_of_property _ _ (str "topK") Hq) as [topK ->].
        destruct (query_of_property _ _ (str "namespace") Hq) as [ns ->].
        destruct (js_length query =? 0); [apply Hnone; simpl; auto|].
        rewrite answer_query_steps. cbv zeta.
        destruct (embeddings_create_one E tr _ query) as [err|[|vector data]].
        -- apply (Hsome _ [_]); [now right|simpl; lia].
        -- apply (Hsome _ [_]); [now right|simpl; lia].
        -- destruct (index_query E _ _ _ vector _) as [err|search].
           ++ rewrite <- app_assoc. apply (Hsome _ [_; _]); [now right|simpl; lia].
           ++ destruct (chat_completion E _ system_prompt _) as [err|content];
                rewrite <- !app_assoc;
                apply (Hsome _ [_; _; _]); simpl; auto.
    + unfold query_try, configured, method_allowed in *.
      apply andb_true_iff in Hcfg. destruct Hcfg as [Hcfg H3].
      apply andb_true_iff in Hcfg. destruct Hcfg as [H1 H2].
      rewrite H1, H2, H3. apply negb_false_iff in Hmethod. rewrite Hmethod. simpl.
      apply Hnone. simpl. auto.
  - unfold query_try, configured in *.
    replace (negb (is_set (OPENAI_API_KEY cfg)) || negb (is_set (PINECONE_API_KEY cfg))
             || negb (is_set (PINECONE_INDEX_NAME cfg))) with true
      by (destruct (is_set (OPENAI_API_KEY cfg)), (is_set (PINECONE_API_KEY cfg)),
            (is_set (PINECONE_INDEX_NAME cfg)); simpl in *; congruence).
    apply Hnone. simpl. auto.
Qed.

Lemma query_try_rejects E cfg event tr :
  configured cfg = false \/ method_allowed event = false ->
  exists r, query_try E cfg event tr = (Return r, tr) /\ statusCode r <> 200.
Proof.
  unfold configured, method_allowed, query_try. intros H.
  destruct (is_set (OPENAI_API_KEY cfg)), (is_set (PINECONE_API_KEY cfg)),
    (is_set (PINECONE_INDEX_NAME cfg)); simpl in *;
    try (eexists; split; [reflexivity|discriminate]).
  destruct H as [H|H]; [discriminate|].
  apply negb_false_iff in H. rewrite H.
  eexists; split; [reflexivity|discriminate].
Qed.

(** X14. A reply with status 200 comes after exactly three calls, in this
    order: the embedding of the trimmed, non-empty query, the index query
    with the first vector of the answer, and the chat completion whose
    prompt holds the query and the context of the matches that have a text
    (or the placeholder when there is none). The reply lists these
    matches, in the order of the index. *)
Theorem answered_query_calls (E : env) (cfg : config) (event : query_event)
    (tr tr' : trace) (r : http_response) :
  query_handler E cfg event tr = (Return r, tr') ->
  statusCode r = 200 ->
  exists query topK namespace vector data search answer,
    query_of (parseBody E (body event)) = inr query /\
    query <> [] /\
    embeddings_create_one E tr (str "text-embedding-3-small") query
      = inr (vector :: data) /\
    index_query E (tr ++ [EmbeddingsCreateOne (str "text-embedding-3-small") query])
      (PINECONE_INDEX_NAME cfg) topK vector namespace = inr search /\
    tr' = tr ++ query_calls E cfg query topK namespace vector
                  (filter has_metadata_text
                     (match search with Some ms => ms | None => [] end)) /\
    reply r = Answer answer
                (map summary_of
                   (filter has_metadata_text
                      (match search with Some ms => ms | None => [] end))).
Proof.
  intros Hrun Hstatus. unfold query_handler in Hrun.
  destruct (configured cfg) eqn:Hcfg;
    [|destruct (query_try_rejects E cfg event tr (or_introl Hcfg)) as (r0 & Hr0 & Hs0);
      rewrite Hr0 in Hrun; injection Hrun as <- _; contradiction].
  destruct (method_allowed event) eqn:Hmethod;
    [|destruct (query_try_rejects E cfg event tr (or_intror Hmethod)) as (r0 & Hr0 & Hs0);
      rewrite Hr0 in Hrun; injection Hrun as <- _; contradiction].
  rewrite query_try_accepts in Hrun by assumption.
  destruct (query_of (parseBody E (body event))) as [e|query] eqn:Hq.
  { injection Hrun as <- _. discriminate Hstatus. }
  destruct (query_of_property _ _ (str "topK") Hq) as [topK HtopK].
  destruct (query_of_property _ _ (str "namespace") Hq) as [ns Hns].
  rewrite HtopK, Hns in Hrun.
  destruct (Z.eqb_spec (js_length query) 0) as [Hz|Hz].
  { injection Hrun as <- _. discriminate Hstatus. }
  rewrite answer_query_steps in Hrun. cbv zeta in Hrun.
  destruct (embeddings_create_one E tr _ query) as [err|[|vector data]] eqn:Hembed;
    try (injection Hrun as <- _; discriminate Hstatus).
  destruct (index_query E _ _ _ vector _) as [err|search] eqn:Hindex;
    try (injection Hrun as <- _; discriminate Hstatus).
  destruct (chat_completion E _ system_prompt _) as [err|content];
    try (injection Hrun as <- _; discriminate Hstatus).
  injection Hrun as <- <-.
  exists query, (js_Number E (or_else topK (VNum 5))), (or_else ns VUndefined),
    vector, data, search, (match content with Some c => trim c | None => [] end).
  split; [reflexivity|]. split; [intros ->; now apply Hz|].
  split; [exact Hembed|]. split; [exact Hindex|].
  split; [now rewrite <- !app_assoc|reflexivity].
Qed.

Lemma answered_query_calls_witness :
  exists query topK namespace vector data search answer,
    query_of (parseBody sample_env (VObj [(str "query", VStr (str " what? "))]))
      = inr query /\
    query <> [] /\
    embeddings_create_one sample_env [] (str "text-embedding-3-small") query
      = inr (vector :: data) /\
    index_query sample_env [EmbeddingsCreateOne (str "text-embedding-3-small") query]
      (PINECONE_INDEX_NAME sample_config) topK vector namespace = inr search /\
    [EmbeddingsCreateOne (str "text-embedding-3-small") (str "what?");
     IndexQuery (Some (str "docs")) (VNum 5) [1 # 2]%Q VUndefined;
     ChatCompletion system_prompt
       (user_question ++ str "what?" ++ user_context ++ no_context ++ user_request)]
    = [] ++ query_calls sample_env sample_config query topK namespace vector
              (filter has_metadata_text
                 (match search with Some ms => ms | None => [] end)) /\
    reply (response 200 (Answer (str "ok") [])) =
      Answer answer
        (map summary_of
           (filter has_metadata_text
              (match search with Some ms => ms | None => [] end))).
Proof.
  apply (answered_query_calls sample_env sample_config
           {| httpMethod := VStr (str "POST");
              body := VObj [(str "query", VStr (str " what? "))] |} []
           _ (response 200 (Answer (str "ok") []))).
  - reflexivity.
  - reflexivity.
Defined.

(** X15. A request that passes the guards but whose body is [null], or
    whose [query] is a truthy value that is not a string (a number, an
    object), is answered with status 500 for a [TypeError], not with 400,
    and without any call. *)
Theorem query_type_error (E : env) (cfg : config) (event : query_event) (tr : trace) :
  configured cfg = true -> method_allowed event = true ->
  parseBody E (body event) = VNull \/
  (exists v, get_property (parseBody E (body event)) (str "query") = inr v /\
             truthy v = true /\ forall s, v <> VStr s) ->
  query_handler E cfg event tr =
  (Return (response 500 (InternalServerError TypeError)), tr).
Proof.
  intros Hcfg Hmethod Hbody. unfold query_handler.
  rewrite query_try_accepts by assumption.
  assert (Hq : query_of (parseBody E (body event)) = inl TypeError).
  { unfold query_of. destruct Hbody as [->|(v & -> & Hv & Hns)]; [reflexivity|].
    unfold or_else. rewrite Hv. destruct v; try reflexivity.
    now contradiction (Hns s). }
  now rewrite Hq.
Qed.

Lemma query_type_error_witness :
  configured sample_config = true /\ method_allowed number_query = true /\
  query_handler sample_env sample_config number_query [] =
  (Return (response 500 (InternalServerError TypeError)), []).
Proof.
  split; [reflexivity|]. split; [reflexivity|].
  apply (query_type_error sample_env sample_config number_query []);
    [reflexivity|reflexivity|].
  right. exists (VNum 42). split; [reflexivity|]. split; [reflexivity|].
  intros s. discriminate.
Defined.

(** ** The upload handler *)

Lemma safe_char_safe (c : code_unit) : is_safe_char (safe_char c) = true.
Proof. unfold safe_char. destruct (is_safe_char c) eqn:H; [exact H|reflexivity]. Qed.

(** X16. [safeName] keeps the length of the name, gives only letters,
    digits, dots, underscores and dashes (so no slash), leaves a name made
    of these as it is, and changes nothing when applied twice. *)
Theorem safeName_is_safe (name : js_string) :
  js_length (safeName name) = js_length name /\
  forallb is_safe_char (safeName name) = true /\
  ~ In 47%N (safeName name) /\
  (forallb is_safe_char name = true -> safeName name = name) /\
  safeName (safeName name) = safeName name.
Proof.
  assert (Hsafe : forallb is_safe_char (safeName name) = true).
  { unfold safeName. induction name as [|c name IH]; [reflexivity|].
    simpl. now rewrite safe_char_safe, IH. }
  assert (Hid : forall l, forallb is_safe_char l = true -> safeName l = l).
  { unfold safeName. induction l as [|c l IH]; [reflexivity|].
    simpl. intros H. apply andb_true_iff in H. destruct H as [Hc Hl].
    unfold safe_char at 1. rewrite Hc. f_equal. now apply IH. }
  split; [unfold safeName, js_length; now rewrite length_map|].
  split; [exact Hsafe|]. split; [|split].
  - intros Hin. rewrite forallb_forall in Hsafe. specialize (Hsafe _ Hin). discriminate.
  - apply Hid.
  - apply Hid. exact Hsafe.
Qed.

Example safeName_sample :
  safeName (str "my report (v2).pdf") = str "my_report__v2_.pdf" /\
  safeName (str "../../etc/passwd") = str ".._.._etc_passwd".
Proof. split; reflexivity. Qed.

Lemma safe_char_eqb (a x : code_unit) :
  is_safe_char x = true -> x <> 95%N ->
  N.eqb (safe_char a) x = N.eqb a x.
Proof.
  intros Hx Hx95. unfold safe_char. destruct (is_safe_char a) eqn:Ha; [reflexivity|].
  destruct (N.eqb_spec 95 x) as [E1|_]; [now contradiction Hx95|].
  destruct (N.eqb_spec a x) as [->|_]; [congruence|reflexivity].
Qed.

Lemma pdf_suffix_of_safe_name (l rest : js_string) :
  starts_with (map safe_char l ++ 45%N :: rest) [102; 100; 112; 46]%N =
  starts_with l [102; 100; 112; 46]%N.
Proof.
  assert (E102 : forall a, N.eqb (safe_char a) 102 = N.eqb a 102)
    by (intros a; apply safe_char_eqb; [reflexivity|discriminate]).
  assert (E100 : forall a, N.eqb (safe_char a) 100 = N.eqb a 100)
    by (intros a; apply safe_char_eqb; [reflexivity|discriminate]).
  assert (E112 : forall a, N.eqb (safe_char a) 112 = N.eqb a 112)
    by (intros a; apply safe_char_eqb; [reflexivity|discriminate]).
  assert (E46 : forall a, N.eqb (safe_char a) 46 = N.eqb a 46)
    by (intros a; apply safe_char_eqb; [reflexivity|discriminate]).
  destruct l as [|a [|b [|c [|d l]]]]; cbn [map app starts_with];
    rewrite ?E102, ?E100, ?E112, ?E46; cbn; rewrite ?andb_false_r; try reflexivity.
  now destruct (map safe_char l ++ 45%N :: rest), l.
Qed.

(** X17. A key made by the upload handler starts with [uploads/], and it
    ends in [.pdf], as the ingestion handler requires, exactly when the
    file name does: the key made for a name such as [A.PDF] is skipped by
    the ingestion handler. *)
Theorem upload_key_eligible (uuid name : js_string) :
  starts_with (object_key_of uuid name) (str "uploads/") = true /\
  eligible (object_key_of uuid name) = ends_with name (str ".pdf").
Proof.
  assert (Hstart : starts_with (object_key_of uuid name) (str "uploads/") = true)
    by apply starts_with_app.
  split; [exact Hstart|].
  unfold eligible. rewrite Hstart, andb_true_r.
  unfold object_key_of, ends_with, safeName.
  rewrite !rev_app_distr, <- map_rev, <- !app_assoc.
  apply pdf_suffix_of_safe_name.
Qed.

Example upload_key_upper_case :
  eligible (object_key_of (str "u") (str "A.PDF")) = false /\
  eligible (object_key_of (str "u") (str "a b.pdf")) = true.
Proof. split; reflexivity. Qed.

(** X18. A reply of the upload handler with status 200 carries the key
    [uploads/<uuid>-<safe name>] of the trimmed file name of the request (or
    of [document.pdf]), the bucket of the environment and [expiresIn] 900,
    and its URL is the one signed for this very bucket, key and content
    type; the lower-cased name ends in [.pdf]. *)
Theorem upload_reply (E : env) (U : upload_env) (BUCKET_NAME : option js_string)
    (event : query_event) :
  up_status (upload_handler E U BUCKET_NAME event) = 200 ->
  exists bucket name contentType uploadUrl,
    BUCKET_NAME = Some bucket /\ bucket <> [] /\
    string_field (parseBody E (body event)) (str "fileName") (str "document.pdf")
      = inr name /\
    string_field (parseBody E (body event)) (str "contentType") (str "application/pdf")
      = inr contentType /\
    ends_with (toLowerCase U name) (str ".pdf") = true /\
    getSignedUrl U bucket (object_key_of (uuidv4 U) name) contentType 900
      = inr uploadUrl /\
    up_reply (upload_handler E U BUCKET_NAME event) =
      UploadUrl uploadUrl (object_key_of (uuidv4 U) name) bucket 900.
Proof.
  unfold upload_handler, upload_try.
  destruct BUCKET_NAME as [bucket|]; simpl is_set; [|discriminate].
  destruct (Z.eqb_spec (js_length bucket) 0) as [Hb|Hb]; simpl negb; [discriminate|].
  destruct (truthy (httpMethod event) && negb (is_POST (httpMethod event)));
    [discriminate|].
  cbv zeta.
  destruct (string_field (parseBody E (body event)) (str "fileName") _)
    as [e|name]; [discriminate|].
  destruct (string_field (parseBody E (body event)) (str "contentType") _)
    as [e|contentType]; [discriminate|].
  destruct (ends_with (toLowerCase U name) (str ".pdf")) eqn:Hpdf; simpl negb;
    [|discriminate].
  simpl text_or_empty.
  destruct (getSignedUrl U bucket (object_key_of (uuidv4 U) name) contentType 900)
    as [err|uploadUrl] eqn:Hsign; [discriminate|].
  intros _. exists bucket, name, contentType, uploadUrl.
  split; [reflexivity|]. split; [intros ->; now apply Hb|].
  repeat split; assumption || reflexivity.
Qed.

Lemma upload_reply_witness :
  exists bucket name contentType uploadUrl,
    Some (str "pdfs") = Some bucket /\ bucket <> [] /\
    string_field (parseBody sample_env (body upload_request)) (str "fileName")
      (str "document.pdf") = inr name /\
    string_field (parseBody sample_env (body upload_request)) (str "contentType")
      (str "application/pdf") = inr contentType /\
    ends_with (toLowerCase sample_upload_env name) (str ".pdf") = true /\
    getSignedUrl sample_upload_env bucket
      (object_key_of (uuidv4 sample_upload_env) name) contentType 900 = inr uploadUrl /\
    up_reply (upload_handler sample_env sample_upload_env (Some (str "pdfs")) upload_request)
      = UploadUrl uploadUrl (object_key_of (uuidv4 sample_upload_env) name) bucket 900.
Proof.
  apply (upload_reply sample_env sample_upload_env (Some (str "pdfs")) upload_request).
  reflexivity.
Defined.

Example upload_sample :
  upload_handler sample_env sample_upload_env (Some (str "pdfs")) upload_request =
  {| up_status := 200;
     up_reply :=
       UploadUrl
         (str "https://s3/pdfs/uploads/123e4567-e89b-42d3-a456-426614174000-my_report__v2_.pdf")
         (str "uploads/123e4567-e89b-42d3-a456-426614174000-my_report__v2_.pdf")
         (str "pdfs") 900 |}.
Proof. reflexivity. Qed.
